(** * threedistvis-go: point-cloud renderer and static asset server

    A shallow embedding of [wasm/main.go] (the WebAssembly renderer) and of
    the top-level [main.go] (the static file server), with the properties
    stated for them.

    - Floating point is IEEE 754 binary32/binary64 as specified by
      [SpecFloat] (round to nearest, ties to even), the arithmetic Go uses
      for [float32] and [float64].
    - Calls into the JavaScript host ([syscall/js]) are recorded as a trace
      of events; the values the host returns come from a [host] record.
    - [math.Sin], [math.Cos] and [rand.Float32] belong to the Go standard
      library, not to this repository: they are interfaces of the model. *)

From Stdlib Require Import ZArith Lia Bool Ascii String List.
From Stdlib Require Import Floats.SpecFloat.
From stdpp Require Import base list gmap.

Local Open Scope Z_scope.

(* ===================================================================== *)
(** * Floating point: Go's [float32] and [float64]                        *)
(* ===================================================================== *)

Module F32.

Definition prec : Z := 24.
Definition emax : Z := 128.

(** Exponent of the least significant bit of a number whose most
    significant bit has weight [2^(e-1)]. *)
Definition fexp32 (e : Z) : Z := fexp prec emax e.

Definition valid (x : spec_float) : bool := valid_binary prec emax x.

Definition add : spec_float -> spec_float -> spec_float := SFadd prec emax.
Definition sub : spec_float -> spec_float -> spec_float := SFsub prec emax.
Definition mul : spec_float -> spec_float -> spec_float := SFmul prec emax.
Definition div : spec_float -> spec_float -> spec_float := SFdiv prec emax.
Definition neg : spec_float -> spec_float := SFopp.

(** [x <= y] and [x < y] as Go evaluates them. *)
Definition leb : spec_float -> spec_float -> bool := SFleb.
Definition ltb : spec_float -> spec_float -> bool := SFltb.

(** An integer constant converted to [float32]. *)
Definition of_Z (n : Z) : spec_float := binary_normalize prec emax n 0 false.

(** A decimal constant [num/den] converted to [float32]: the nearest
    binary32 value, as the Go compiler rounds an untyped constant. *)
Definition of_ratio (num den : Z) : spec_float := div (of_Z num) (of_Z den).

Definition zero : spec_float := S754_zero false.
Definition one : spec_float := Eval vm_compute in of_Z 1.
Definition two : spec_float := Eval vm_compute in of_Z 2.
Definition minus_one : spec_float := Eval vm_compute in of_Z (-1).
Definition minus_two : spec_float := Eval vm_compute in of_Z (-2).

(** The value of a finite binary32 number, in units of [2^-149] (the
    smallest positive subnormal), so that it is an integer. *)
Definition scaled (x : spec_float) : Z :=
  match x with
  | S754_finite s m e => cond_Zopp s (Zpos m * 2 ^ (e + 149))
  | _ => 0
  end.

End F32.

Module F64.

Definition prec : Z := 53.
Definition emax : Z := 1024.

Definition of_Z (n : Z) : spec_float := binary_normalize prec emax n 0 false.

(** [float64(x)] for a [float32] [x]: exact, the mantissa is re-aligned. *)
Definition of_f32 (x : spec_float) : spec_float :=
  match x with
  | S754_finite s m e => binary_round prec emax s m e
  | _ => x
  end.

(** [float32(x)] for a [float64] [x]: rounded to nearest even. *)
Definition to_f32 (x : spec_float) : spec_float :=
  match x with
  | S754_finite s m e => binary_round F32.prec F32.emax s m e
  | _ => x
  end.

End F64.

(** The part of Go's [math] package the renderer calls. *)
Class MathLib := {
  math_Sin : spec_float -> spec_float;
  math_Cos : spec_float -> spec_float
}.

(* ===================================================================== *)
(** * The JavaScript host                                                 *)
(* ===================================================================== *)

(** A [js.Value] as far as the renderer distinguishes them. *)
Inductive jsval :=
| JSNull
| JSObject (id : nat)
| JSNumber (n : Z).

Definition IsNull (v : jsval) : bool :=
  match v with JSNull => true | _ => false end.

(** [Value.Call] panics unless its receiver is an object. *)
Definition is_object (v : jsval) : bool :=
  match v with JSObject _ => true | _ => false end.

(** The WebGL enumerants read with [gl.Get]. *)
Inductive glenum :=
| COLOR_BUFFER_BIT | ARRAY_BUFFER | STATIC_DRAW
| VERTEX_SHADER | FRAGMENT_SHADER | FLOAT | POINTS.

(** One [gl.Call]: method and arguments. *)
Inductive gl_call :=
| clearColor (r g b a : spec_float)
| clear (mask : glenum)
| createBuffer
| bindBuffer (target : glenum) (buf : jsval)
| bufferData (target : glenum) (data : list spec_float) (usage : glenum)
| createShader (kind : glenum)
| shaderSource (shader : jsval) (source : string)
| compileShader (shader : jsval)
| createProgram
| attachShader (prog shader : jsval)
| linkProgram (prog : jsval)
| useProgram (prog : jsval)
| getAttribLocation (prog : jsval) (name : string)
| enableVertexAttribArray (loc : jsval)
| vertexAttribPointer (loc : jsval) (size : Z) (type : glenum)
                      (normalized : bool) (stride offset : Z)
| getUniformLocation (prog : jsval) (name : string)
| uniformMatrix4fv (loc : jsval) (transpose : bool) (m : list spec_float)
| drawArrays (mode : glenum) (first count : Z).

(** Everything the renderer asks of its environment, in program order:
    calls into the page, calls of the graphics context, and draws from
    the random source. *)
Inductive event :=
| getElementById (id : string)
| getContext (kind : string)
| alert (msg : string)
| GL (c : gl_call)
| rand_Float32
| requestAnimationFrame.

(** What the host answers.  [h_rand k] is the value of the [k]-th call of
    [rand.Float32], counting from 0. *)
Record host := {
  h_canvas : jsval;
  h_context : jsval;
  h_buffer : jsval;
  h_vertexShader : jsval;
  h_fragmentShader : jsval;
  h_program : jsval;
  h_positionLoc : jsval;
  h_mvpLoc : jsval;
  h_rand : nat -> spec_float
}.

(* ===================================================================== *)
(** * The renderer, [wasm/main.go]                                        *)
(* ===================================================================== *)

Definition vertexShaderSource : string := "
		attribute vec3 position;
		uniform mat4 modelViewProjection;
		void main() {
			gl_Position = modelViewProjection * vec4(position, 1.0);
			gl_PointSize = 5.0;
		}
	"%string.

Definition fragmentShaderSource : string := "
		precision mediump float;
		void main() {
			gl_FragColor = vec4(1.0, 1.0, 1.0, 1.0); // White points
		}
	"%string.

(** [rand.Float32()*2 - 1], in [float32] arithmetic. *)
Definition point_coord (v : spec_float) : spec_float :=
  F32.sub (F32.mul v F32.two) F32.one.

(** [points := make([]float32, 300)] followed by the loop
    [for i := 0; i < 300; i++ { points[i] = rand.Float32()*2 - 1 }].
    Every index written is below the length, so the assignment never
    panics; the [i]-th iteration consumes the [i]-th random value. *)
Definition fill_points (rnd : nat -> spec_float) : list spec_float :=
  foldl (fun pts i => <[i := point_coord (rnd i)]> pts)
        (replicate 300 F32.zero) (seq 0 300).

(** The variables of [main] that are live while the frame loop runs. *)
Record state := {
  gl : jsval;
  points : list spec_float;
  buffer : jsval;
  vertexShader : jsval;
  fragmentShader : jsval;
  program : jsval;
  positionLoc : jsval;
  mvpLoc : jsval;
  angle : spec_float
}.

Definition set_angle (a : spec_float) (st : state) : state :=
  {| gl := gl st; points := points st; buffer := buffer st;
     vertexShader := vertexShader st; fragmentShader := fragmentShader st;
     program := program st; positionLoc := positionLoc st;
     mvpLoc := mvpLoc st; angle := a |}.

(** How [main] ends: it returns, it panics, or it blocks on [<-c] with the
    frame callback registered. *)
Inductive outcome :=
| Returned
| Panicked
| Blocked (st : state).

(** The constant [0.01] of [angle += 0.01], as a [float32]. *)
Definition angle_step : spec_float := F32.of_ratio 1 100.

Section Renderer.
Context `{MathLib}.

(** The matrix literal of the frame callback, in the order it is
    written (WebGL reads it column by column). *)
Definition mvp (a : spec_float) : list spec_float :=
  let s := F64.to_f32 (math_Sin (F64.of_f32 a)) in
  let c := F64.to_f32 (math_Cos (F64.of_f32 a)) in
  [ c; F32.zero; s; F32.zero;
    F32.zero; F32.one; F32.zero; F32.zero;
    F32.neg s; F32.zero; c; F32.zero;
    F32.zero; F32.zero; F32.minus_two; F32.one ].

(** The frame callback.  [None] is a panic of [gl.Call]. *)
Definition render (st : state) : option (state * list event) :=
  let a := F32.add (angle st) angle_step in
  if is_object (gl st) then
    Some (set_angle a st,
          [ GL (uniformMatrix4fv (mvpLoc st) false (mvp a));
            GL (clear COLOR_BUFFER_BIT);
            GL (drawArrays POINTS 0 100);
            requestAnimationFrame ])
  else None.

(** [n] frame ticks in a row: the final state and everything issued. *)
Fixpoint frames (n : nat) (st : state) : option (state * list event) :=
  match n with
  | O => Some (st, [])
  | S k =>
      match render st with
      | Some (st1, t1) =>
          match frames k st1 with
          | Some (st2, t2) => Some (st2, t1 ++ t2)
          | None => None
          end
      | None => None
      end
  end.

End Renderer.

(** The WebGL calls of [main] right after the context check. *)
Definition clear_calls : list gl_call :=
  [ clearColor (F64.of_Z 0) (F64.of_Z 0) (F64.of_Z 0) (F64.of_Z 1);
    clear COLOR_BUFFER_BIT ].

(** The WebGL calls of [main] between the generation of the points and
    the start of the frame loop. *)
Definition setup_calls (h : host) (pts : list spec_float) : list gl_call :=
  [ createBuffer;
    bindBuffer ARRAY_BUFFER (h_buffer h);
    bufferData ARRAY_BUFFER pts STATIC_DRAW;
    createShader VERTEX_SHADER;
    shaderSource (h_vertexShader h) vertexShaderSource;
    compileShader (h_vertexShader h);
    createShader FRAGMENT_SHADER;
    shaderSource (h_fragmentShader h) fragmentShaderSource;
    compileShader (h_fragmentShader h);
    createProgram;
    attachShader (h_program h) (h_vertexShader h);
    attachShader (h_program h) (h_fragmentShader h);
    linkProgram (h_program h);
    useProgram (h_program h);
    getAttribLocation (h_program h) "position";
    enableVertexAttribArray (h_positionLoc h);
    vertexAttribPointer (h_positionLoc h) 3 FLOAT false 0 0;
    getUniformLocation (h_program h) "modelViewProjection" ].

Definition initial_state (h : host) (pts : list spec_float) : state :=
  {| gl := h_context h; points := pts; buffer := h_buffer h;
     vertexShader := h_vertexShader h; fragmentShader := h_fragmentShader h;
     program := h_program h; positionLoc := h_positionLoc h;
     mvpLoc := h_mvpLoc h; angle := F32.zero |}.

(** [main]: the events it issues and how it ends. *)
Definition main (h : host) : list event * outcome :=
  if negb (is_object (h_canvas h)) then
    ([getElementById "canvas"], Panicked)
  else if IsNull (h_context h) then
    ([getElementById "canvas"; getContext "webgl";
      alert "WebGL not supported"], Returned)
  else if negb (is_object (h_context h)) then
    ([getElementById "canvas"; getContext "webgl"], Panicked)
  else
    let pts := fill_points (h_rand h) in
    ([getElementById "canvas"; getContext "webgl"]
       ++ map GL clear_calls
       ++ replicate 300 rand_Float32
       ++ map GL (setup_calls h pts)
       ++ [requestAnimationFrame],
     Blocked (initial_state h pts)).

(** The contract of [rand.Float32]: a [float32] in [[0.0, 1.0)]. *)
Definition unit_interval (v : spec_float) : Prop :=
  F32.valid v = true /\ F32.leb F32.zero v = true /\ F32.ltb v F32.one = true.

(** ** Reading traces and matrices *)

Fixpoint count (p : event -> bool) (t : list event) : nat :=
  match t with
  | [] => 0%nat
  | e :: t' => if p e then S (count p t') else count p t'
  end.

Definition gl_calls (t : list event) : list gl_call :=
  flat_map (fun e => match e with GL c => [c] | _ => [] end) t.

Definition is_uniform_upload (e : event) : bool :=
  match e with GL (uniformMatrix4fv _ _ _) => true | _ => false end.

Definition is_clear (e : event) : bool :=
  match e with GL (clear COLOR_BUFFER_BIT) => true | _ => false end.

Definition is_draw (e : event) : bool :=
  match e with GL (drawArrays _ _ _) => true | _ => false end.

Definition is_alert (e : event) : bool :=
  match e with alert _ => true | _ => false end.

Definition is_gl (e : event) : bool :=
  match e with GL _ => true | _ => false end.

Definition is_rand (e : event) : bool :=
  match e with rand_Float32 => true | _ => false end.

Definition is_getContext (e : event) : bool :=
  match e with getContext _ => true | _ => false end.

Definition is_requestAnimationFrame (e : event) : bool :=
  match e with requestAnimationFrame => true | _ => false end.

(** The matrices uploaded in a trace, in order. *)
Definition uploaded (t : list event) : list (list spec_float) :=
  flat_map (fun e => match e with
                     | GL (uniformMatrix4fv _ _ m) => [m]
                     | _ => []
                     end) t.

(** Entry at [row], [col] of a 4x4 matrix stored column by column, as
    [uniformMatrix4fv] with [transpose = false] reads it. *)
Definition entry (m : list spec_float) (row col : nat) : option spec_float :=
  m !! (4 * col + row)%nat.

(** A flat coordinate list read as points [(x, y, z)]; coordinates left
    over at the end (fewer than three) are dropped. *)
Fixpoint triples (l : list spec_float) : list (spec_float * spec_float * spec_float) :=
  match l with
  | x :: y :: z :: rest => (x, y, z) :: triples rest
  | _ => []
  end.

Definition flatten (ps : list (spec_float * spec_float * spec_float)) : list spec_float :=
  flat_map (fun p => [p.1.1; p.1.2; p.2]) ps.

(* ===================================================================== *)
(** * The graphics context the calls act on                               *)
(* ===================================================================== *)

(** The WebGL 1.0 state that the renderer's calls read or write: buffer
    objects and the [ARRAY_BUFFER] binding, the program in use, the vertex
    attribute arrays, uniform values, and a log of clears and draws. *)

Record attrib := {
  a_enabled : bool;
  a_size : Z;            (* components per vertex *)
  a_stride : Z;          (* bytes; 0 means tightly packed *)
  a_offset : Z;          (* bytes *)
  a_buffer : jsval       (* the buffer bound when the pointer was set *)
}.

Definition default_attrib : attrib :=
  {| a_enabled := false; a_size := 4; a_stride := 0; a_offset := 0;
     a_buffer := JSNull |}.

Record gl_state := {
  array_buffer_binding : jsval;
  buffer_store : gmap nat (list spec_float);
  current_program : jsval;
  attribs : gmap Z attrib;
  uniforms : gmap nat (list spec_float);
  clears : nat;
  draws : list (glenum * Z * Z)
}.

Definition gl_init : gl_state :=
  {| array_buffer_binding := JSNull; buffer_store := ∅;
     current_program := JSNull; attribs := ∅; uniforms := ∅;
     clears := 0%nat; draws := [] |}.

Definition attrib_of (g : gl_state) (n : Z) : attrib :=
  default (default_attrib) (attribs g !! n).

(** The effect of one call.  A call WebGL rejects (no buffer bound, a
    negative attribute index, a null uniform location) changes nothing. *)
Definition gl_exec (g : gl_state) (c : gl_call) : gl_state :=
  match c with
  | bindBuffer ARRAY_BUFFER b =>
      {| array_buffer_binding := b; buffer_store := buffer_store g;
         current_program := current_program g; attribs := attribs g;
         uniforms := uniforms g; clears := clears g; draws := draws g |}
  | bufferData ARRAY_BUFFER data _ =>
      match array_buffer_binding g with
      | JSObject id =>
          {| array_buffer_binding := array_buffer_binding g;
             buffer_store := <[id := data]> (buffer_store g);
             current_program := current_program g; attribs := attribs g;
             uniforms := uniforms g; clears := clears g; draws := draws g |}
      | _ => g
      end
  | useProgram p =>
      {| array_buffer_binding := array_buffer_binding g;
         buffer_store := buffer_store g;
         current_program := p; attribs := attribs g;
         uniforms := uniforms g; clears := clears g; draws := draws g |}
  | enableVertexAttribArray (JSNumber n) =>
      if 0 <=? n then
        let a := attrib_of g n in
        {| array_buffer_binding := array_buffer_binding g;
           buffer_store := buffer_store g;
           current_program := current_program g;
           attribs := <[n := {| a_enabled := true; a_size := a_size a;
                                a_stride := a_stride a;
                                a_offset := a_offset a;
                                a_buffer := a_buffer a |}]> (attribs g);
           uniforms := uniforms g; clears := clears g; draws := draws g |}
      else g
  | vertexAttribPointer (JSNumber n) size FLOAT _ stride offset =>
      if 0 <=? n then
        let a := attrib_of g n in
        {| array_buffer_binding := array_buffer_binding g;
           buffer_store := buffer_store g;
           current_program := current_program g;
           attribs := <[n := {| a_enabled := a_enabled a; a_size := size;
                                a_stride := stride; a_offset := offset;
                                a_buffer := array_buffer_binding g |}]>
                        (attribs g);
           uniforms := uniforms g; clears := clears g; draws := draws g |}
      else g
  | uniformMatrix4fv (JSObject id) _ m =>
      {| array_buffer_binding := array_buffer_binding g;
         buffer_store := buffer_store g;
         current_program := current_program g; attribs := attribs g;
         uniforms := <[id := m]> (uniforms g);
         clears := clears g; draws := draws g |}
  | clear _ =>
      {| array_buffer_binding := array_buffer_binding g;
         buffer_store := buffer_store g;
         current_program := current_program g; attribs := attribs g;
         uniforms := uniforms g; clears := S (clears g); draws := draws g |}
  | drawArrays mode first count =>
      {| array_buffer_binding := array_buffer_binding g;
         buffer_store := buffer_store g;
         current_program := current_program g; attribs := attribs g;
         uniforms := uniforms g; clears := clears g;
         draws := draws g ++ [(mode, first, count)] |}
  | _ => g
  end.

(** The context after a trace: only [gl.Call]s act on it. *)
Definition gl_run (g : gl_state) (t : list event) : gl_state :=
  foldl (fun g e => match e with GL c => gl_exec g c | _ => g end) g t.

(** Size in bytes of the data store of a buffer ([float32] is 4 bytes). *)
Definition buffer_bytes (g : gl_state) (b : jsval) : Z :=
  match b with
  | JSObject id =>
      match buffer_store g !! id with
      | Some d => 4 * Z.of_nat (length d)
      | None => 0
      end
  | _ => 0
  end.

(** The bytes [lo, hi) that fetching vertex [i] through [a] reads. *)
Definition fetch_range (a : attrib) (i : Z) : Z * Z :=
  let elt := 4 * a_size a in
  let stride := if a_stride a =? 0 then elt else a_stride a in
  (a_offset a + i * stride, a_offset a + i * stride + elt).

Definition fetch_in_bounds (g : gl_state) (a : attrib) (i : Z) : Prop :=
  0 <= fst (fetch_range a i) /\
  snd (fetch_range a i) <= buffer_bytes g (a_buffer a).

(** A draw of vertices [first .. first+count-1] stays inside the buffers
    of all enabled attribute arrays. *)
Definition draw_in_bounds (g : gl_state) (first count : Z) : Prop :=
  forall n a, attribs g !! n = Some a -> a_enabled a = true ->
  forall i, first <= i < first + count -> fetch_in_bounds g a i.

(** The position attribute as [main] sets it up on buffer [b]:
    [vertexAttribPointer(positionLoc, 3, FLOAT, false, 0, 0)], enabled. *)
Definition position_attrib (b : nat) : attrib :=
  {| a_enabled := true; a_size := 3; a_stride := 0; a_offset := 0;
     a_buffer := JSObject b |}.

(** ** Distance of the angle from [n * 0.01] *)

(** [a] is within a relative error of [2^-16] of [n / 100]. *)
Definition close_to (n : Z) (a : spec_float) : bool :=
  2 ^ 16 * Z.abs (100 * F32.scaled a - n * 2 ^ 149) <=? n * 2 ^ 149.

(** [close_to] holds of [a] at tick [n] and of the [k] angles after it. *)
Fixpoint all_close (k : nat) (n : Z) (a : spec_float) : bool :=
  close_to n a &&
  match k with
  | O => true
  | S k' => all_close k' (n + 1) (F32.add a angle_step)
  end.

(* ===================================================================== *)
(** * The static asset server, top-level [main.go]                        *)
(* ===================================================================== *)

Module Server.

(** What [main] asks of [net/http] and [fmt]. *)
Inductive event :=
| Handle (pattern : string) (dir : string)
    (* [http.Handle(pattern, http.FileServer(http.Dir(dir)))] *)
| Println (args : list string)
| ListenAndServe (addr : string).

(** [http.ListenAndServe] either keeps serving or returns its error. *)
Inductive listen_result :=
| ServesForever
| ListenReturns (err : option string).

Inductive status :=
| Serving      (* still inside [ListenAndServe] *)
| Exited.      (* [main] returned: the process has ended *)

Definition main (r : listen_result) : list event * status :=
  let start :=
    [ Handle "/" "wasm";
      Println ["Server running at http://localhost:8080"%string];
      ListenAndServe ":8080" ] in
  match r with
  | ServesForever => (start, Serving)
  | ListenReturns (Some err) =>
      (start ++ [Println ["Server error:"%string; err]], Exited)
  | ListenReturns None => (start, Exited)
  end.

(** The TCP port of a listen address [host:port], as [net.Listen]
    reads it: the decimal number after the last colon. *)
Definition digit_of (c : Ascii.ascii) : option N :=
  let n := Ascii.N_of_ascii c in
  if ((48 <=? n) && (n <=? 57))%N then Some (n - 48)%N else None.

Fixpoint parse_decimal (acc : N) (s : string) : option N :=
  match s with
  | EmptyString => Some acc
  | String c rest =>
      match digit_of c with
      | Some d => parse_decimal (10 * acc + d)%N rest
      | None => None
      end
  end.

Fixpoint after_last_colon (s : string) : option string :=
  match s with
  | EmptyString => None
  | String c rest =>
      match after_last_colon rest with
      | Some t => Some t
      | None => if Ascii.eqb c ":"%char then Some rest else None
      end
  end.

Definition port_of_addr (addr : string) : option N :=
  match after_last_colon addr with
  | Some (String c rest) => parse_decimal 0 (String c rest)
  | _ => None
  end.

(** Position of the first event satisfying [p]. *)
Fixpoint index_of (p : event -> bool) (t : list event) : option nat :=
  match t with
  | [] => None
  | e :: t' => if p e then Some 0%nat else option_map S (index_of p t')
  end.

Definition is_handle_root (e : event) : bool :=
  match e with Handle p _ => String.eqb p "/" | _ => false end.

Definition is_listen (e : event) : bool :=
  match e with ListenAndServe _ => true | _ => false end.

End Server.

(* ===================================================================== *)
(** * Further notions used to state properties                            *)
(* ===================================================================== *)

(** The angle is a [float32] with [0 <= angle] and [angle <= 262144]. *)
Definition angle_in_range (a : spec_float) : bool :=
  F32.valid a && F32.leb F32.zero a && F32.leb a (F32.of_Z 262144).

(** ** Shader and program objects *)

(** The part of the context that the shader calls act on: the source
    last set on each shader, the source each shader was last compiled
    from, the shaders attached to each program, what each program was
    linked from (its attached shaders with their compiled sources at that
    moment), the program in use, and the names looked up in a program
    together with whether it was linked at that moment. *)
Record pipeline := {
  sh_source : gmap nat string;
  sh_compiled : gmap nat string;
  pr_attached : gmap nat (list nat);
  pr_linked : gmap nat (list (nat * option string));
  pr_in_use : option nat;
  pr_lookups : list (string * bool)
}.

Definition pipeline_init : pipeline :=
  {| sh_source := ∅; sh_compiled := ∅; pr_attached := ∅; pr_linked := ∅;
     pr_in_use := None; pr_lookups := [] |}.

Definition is_linked (p : pipeline) (pr : nat) : bool :=
  match pr_linked p !! pr with Some _ => true | None => false end.

(** The effect of one call.  Compiling a shader that has no source,
    using a program that was never linked, and calls on [null] change
    nothing. *)
Definition pipeline_exec (p : pipeline) (c : gl_call) : pipeline :=
  match c with
  | shaderSource (JSObject s) src =>
      {| sh_source := <[s := src]> (sh_source p);
         sh_compiled := sh_compiled p; pr_attached := pr_attached p;
         pr_linked := pr_linked p; pr_in_use := pr_in_use p;
         pr_lookups := pr_lookups p |}
  | compileShader (JSObject s) =>
      match sh_source p !! s with
      | Some src =>
          {| sh_source := sh_source p;
             sh_compiled := <[s := src]> (sh_compiled p);
             pr_attached := pr_attached p; pr_linked := pr_linked p;
             pr_in_use := pr_in_use p; pr_lookups := pr_lookups p |}
      | None => p
      end
  | attachShader (JSObject pr) (JSObject s) =>
      {| sh_source := sh_source p; sh_compiled := sh_compiled p;
         pr_attached :=
           <[pr := default [] (pr_attached p !! pr) ++ [s]]> (pr_attached p);
         pr_linked := pr_linked p; pr_in_use := pr_in_use p;
         pr_lookups := pr_lookups p |}
  | linkProgram (JSObject pr) =>
      {| sh_source := sh_source p; sh_compiled := sh_compiled p;
         pr_attached := pr_attached p;
         pr_linked :=
           <[pr := map (fun s => (s, sh_compiled p !! s))
                       (default [] (pr_attached p !! pr))]> (pr_linked p);
         pr_in_use := pr_in_use p; pr_lookups := pr_lookups p |}
  | useProgram (JSObject pr) =>
      if is_linked p pr then
        {| sh_source := sh_source p; sh_compiled := sh_compiled p;
           pr_attached := pr_attached p; pr_linked := pr_linked p;
           pr_in_use := Some pr; pr_lookups := pr_lookups p |}
      else p
  | getAttribLocation (JSObject pr) name
  | getUniformLocation (JSObject pr) name =>
      {| sh_source := sh_source p; sh_compiled := sh_compiled p;
         pr_attached := pr_attached p; pr_linked := pr_linked p;
         pr_in_use := pr_in_use p;
         pr_lookups := pr_lookups p ++ [(name, is_linked p pr)] |}
  | _ => p
  end.

Definition pipeline_run (p : pipeline) (t : list event) : pipeline :=
  foldl (fun p e => match e with GL c => pipeline_exec p c | _ => p end) p t.

(** [sub] occurs in [s]. *)
Definition occurs (sub s : string) : bool :=
  match String.index 0 sub s with Some _ => true | None => false end.

(* ===================================================================== *)
(** * Examples used to exercise the model                                 *)
(* ===================================================================== *)

(** A second-order approximation of sine and cosine in [float64], enough
    to run the renderer on concrete inputs. *)
Definition taylor_sin (x : spec_float) : spec_float :=
  SFsub F64.prec F64.emax x
    (SFdiv F64.prec F64.emax
       (SFmul F64.prec F64.emax x (SFmul F64.prec F64.emax x x))
       (F64.of_Z 6)).

Definition taylor_cos (x : spec_float) : spec_float :=
  SFsub F64.prec F64.emax (F64.of_Z 1)
    (SFdiv F64.prec F64.emax (SFmul F64.prec F64.emax x x) (F64.of_Z 2)).

Definition taylor_math : MathLib :=
  {| math_Sin := taylor_sin; math_Cos := taylor_cos |}.

(** A random source that cycles through values of [[0, 1)], among them
    the smallest ([0], the least subnormal) and the largest ([1 - 2^-24]). *)
Definition sample_values : list spec_float :=
  [ F32.zero;
    S754_finite false 1 (-149);
    F32.of_ratio 1 1073741824;
    F32.of_ratio 1 10;
    F32.of_ratio 1 4;
    F32.of_ratio 1 2;
    F32.of_ratio 3 4;
    S754_finite false 16777215 (-24) ].

Definition sample_rand (k : nat) : spec_float :=
  nth (k mod 8) sample_values F32.zero.

(** A page with a canvas and a working context. *)
Definition sample_host : host :=
  {| h_canvas := JSObject 1; h_context := JSObject 2; h_buffer := JSObject 3;
     h_vertexShader := JSObject 4; h_fragmentShader := JSObject 5;
     h_program := JSObject 6; h_positionLoc := JSNumber 0;
     h_mvpLoc := JSObject 7; h_rand := sample_rand |}.

(** The same page when [getContext] yields [null]. *)
Definition no_webgl_host : host :=
  {| h_canvas := JSObject 1; h_context := JSNull; h_buffer := JSNull;
     h_vertexShader := JSNull; h_fragmentShader := JSNull;
     h_program := JSNull; h_positionLoc := JSNull;
     h_mvpLoc := JSNull; h_rand := sample_rand |}.

Definition sample_state : state :=
  initial_state sample_host (fill_points sample_rand).

(** A second state with the angle of [sample_state] and nothing else in
    common with it. *)
Definition other_state : state :=
  {| gl := JSObject 12; points := []; buffer := JSNull;
     vertexShader := JSNull; fragmentShader := JSNull; program := JSNull;
     positionLoc := JSNumber 5; mvpLoc := JSNull; angle := F32.zero |}.


(** [sample_state] with the angle at 262144. *)
Definition saturated_state : state :=
  set_angle (F32.of_Z 262144) sample_state.

(** One hundred million frames: about nineteen days at 60 frames per
    second.  Kept as a conversion from [Z] so that it is never expanded
    into unary form. *)
Definition many_frames : nat := Z.to_nat 100000000.

(* ===================================================================== *)
(** * Facts about binary32 rounding                                       *)
(* ===================================================================== *)

Section Binary32.
Import F32.

Lemma fexp32_eq e : fexp32 e = Z.max (e - 24) (-149).
Proof. reflexivity. Qed.

Lemma fexp32_mono a b : a <= b -> fexp32 a <= fexp32 b.
Proof. rewrite !fexp32_eq. lia. Qed.

(** ** Number of binary digits *)

Lemma digits2_pos_log2 p : Zpos (digits2_pos p) = Z.log2 (Zpos p) + 1.
Proof.
  assert (Hsize : forall q, digits2_pos q = Pos.size q)
    by (induction q; simpl; congruence).
  destruct p; simpl; rewrite ?Hsize; lia.
Qed.

Lemma Zdigits2_log2 m : 0 < m -> Zdigits2 m = Z.log2 m + 1.
Proof. destruct m; try lia. intros _. apply digits2_pos_log2. Qed.

Lemma Zdigits2_bounds m :
  0 < m -> 2 ^ (Zdigits2 m - 1) <= m < 2 ^ Zdigits2 m.
Proof.
  intros Hm. rewrite Zdigits2_log2 by trivial.
  replace (Z.log2 m + 1 - 1) with (Z.log2 m) by lia.
  apply Z.log2_spec; trivial.
Qed.

Lemma Zdigits2_pos m : 0 < m -> 0 < Zdigits2 m.
Proof.
  intros Hm. rewrite Zdigits2_log2 by trivial.
  pose proof (Z.log2_nonneg m). lia.
Qed.

Lemma Zdigits2_mono a b : 0 < a -> a <= b -> Zdigits2 a <= Zdigits2 b.
Proof.
  intros Ha Hab. rewrite !Zdigits2_log2 by lia.
  pose proof (Z.log2_le_mono a b Hab). lia.
Qed.

Lemma Zdigits2_lt_pow m j : 0 < m -> 0 <= j -> m < 2 ^ j -> Zdigits2 m <= j.
Proof.
  intros Hm Hj Hlt. rewrite Zdigits2_log2 by trivial.
  pose proof (proj1 (Z.log2_lt_pow2 m j Hm) Hlt). lia.
Qed.

Lemma Zdigits2_le_pow m j :
  0 < m -> 0 <= j -> m <= 2 ^ j -> Zdigits2 m <= j + 1.
Proof.
  intros Hm Hj Hle. apply Zdigits2_lt_pow; try lia.
  rewrite Z.pow_add_r by lia. change (2 ^ 1) with 2. lia.
Qed.

Lemma Zdigits2_ge_pow m j : 0 <= j -> 2 ^ j <= m -> j + 1 <= Zdigits2 m.
Proof.
  intros Hj Hle. assert (0 < m) by (pose proof (Z.pow_pos_nonneg 2 j); lia).
  rewrite Zdigits2_log2 by trivial.
  pose proof (proj1 (Z.log2_le_pow2 m j H) Hle). lia.
Qed.

Lemma Zdigits2_mul_pow m n :
  0 < m -> 0 <= n -> Zdigits2 (m * 2 ^ n) = Zdigits2 m + n.
Proof.
  intros Hm Hn.
  assert (0 < 2 ^ n) by (apply Z.pow_pos_nonneg; lia).
  rewrite !Zdigits2_log2 by nia.
  rewrite Z.log2_mul_pow2 by lia. lia.
Qed.

Lemma Zdigits2_div_pow m n :
  0 <= n -> 2 ^ n <= m -> Zdigits2 (m / 2 ^ n) = Zdigits2 m - n.
Proof.
  intros Hn Hle.
  assert (H2 : 0 < 2 ^ n) by (apply Z.pow_pos_nonneg; lia).
  assert (Hq : 0 < m / 2 ^ n) by (apply Z.div_str_pos; lia).
  rewrite !Zdigits2_log2 by lia.
  rewrite <- Z.shiftr_div_pow2 by trivial.
  rewrite Z.log2_shiftr by lia.
  pose proof (Zdigits2_ge_pow m n Hn Hle) as Hd.
  rewrite Zdigits2_log2 in Hd by lia. lia.
Qed.

(** ** Shifting right with round and sticky bits *)

Lemma iter_pos_nat {A} (f : A -> A) p x :
  SpecFloat.iter_pos f p x = Nat.iter (Pos.to_nat p) f x.
Proof.
  revert x. induction p as [p IH | p IH |]; intros x; cbn [SpecFloat.iter_pos].
  - rewrite !IH, Pos2Nat.inj_xI.
    replace (S (2 * Pos.to_nat p)) with (Pos.to_nat p + S (Pos.to_nat p))%nat
      by lia.
    rewrite Nat.iter_add, Nat.iter_succ_r. reflexivity.
  - rewrite !IH, Pos2Nat.inj_xO.
    replace (2 * Pos.to_nat p)%nat with (Pos.to_nat p + Pos.to_nat p)%nat
      by lia.
    rewrite Nat.iter_add. reflexivity.
  - reflexivity.
Qed.

Lemma shr_1_nonneg m r s :
  0 <= m ->
  shr_1 {| shr_m := m; shr_r := r; shr_s := s |} =
  {| shr_m := m / 2; shr_r := Z.odd m; shr_s := r || s |}.
Proof.
  intros Hm. rewrite <- Z.div2_div.
  destruct m as [| p | p]; [reflexivity | | lia].
  destruct p; reflexivity.
Qed.

Lemma shr_iter_spec n m :
  0 <= m ->
  let mrs := Nat.iter n shr_1 {| shr_m := m; shr_r := false; shr_s := false |} in
  shr_m mrs = m / 2 ^ Z.of_nat n /\
  (m mod 2 ^ Z.of_nat n = 0 -> shr_r mrs = false /\ shr_s mrs = false).
Proof.
  intros Hm. induction n as [| n IH]; cbn zeta.
  - simpl. rewrite Z.div_1_r. auto.
  - cbn zeta in IH. destruct IH as [IHm IHx].
    rewrite Nat.iter_succ.
    destruct (Nat.iter n shr_1 _) as [m' r' s'] eqn:E. simpl in IHm, IHx.
    assert (H2 : 0 < 2 ^ Z.of_nat n) by (apply Z.pow_pos_nonneg; lia).
    assert (Hm' : 0 <= m') by (subst m'; apply Z.div_pos; lia).
    rewrite shr_1_nonneg by trivial. simpl.
    rewrite Nat2Z.inj_succ, Z.pow_succ_r by lia.
    split.
    + subst m'. rewrite Z.div_div by lia. f_equal. lia.
    + intros Hmod.
      apply Z.mod_divide in Hmod; [| lia]. destruct Hmod as [q Hq].
      assert (Hmn : m = (2 * q) * 2 ^ Z.of_nat n) by lia.
      assert (m mod 2 ^ Z.of_nat n = 0)
        by (rewrite Hmn; apply Z.mod_mul; lia).
      destruct (IHx H) as [-> ->].
      assert (m' = 2 * q)
        by (subst m'; rewrite Hmn; apply Z.div_mul; lia).
      subst m'. rewrite H0, Z.odd_mul. auto.
Qed.

Lemma round_nearest_even_bounds mrs :
  let q := shr_m mrs in
  let r := round_nearest_even q (loc_of_shr_record mrs) in
  q <= r <= q + 1 /\ (shr_r mrs = false -> shr_s mrs = false -> r = q).
Proof.
  destruct mrs as [q [|] [|]]; simpl; try destruct (Z.even q);
    (split; [lia | congruence || reflexivity]).
Qed.

Lemma shr_fexp_spec m e :
  0 <= m ->
  let n := Z.max 0 (fexp32 (Zdigits2 m + e) - e) in
  exists mrs,
    shr_fexp prec emax m e loc_Exact = (mrs, e + n) /\
    shr_m mrs = m / 2 ^ n /\
    (m mod 2 ^ n = 0 -> shr_r mrs = false /\ shr_s mrs = false).
Proof.
  intros Hm n. unfold shr_fexp, shr. fold (fexp32 (Zdigits2 m + e)).
  simpl shr_record_of_loc.
  destruct (fexp32 (Zdigits2 m + e) - e) as [| p | p] eqn:E; subst n.
  - replace (Z.max 0 0) with 0 by lia. rewrite Z.add_0_r.
    eexists; split; [reflexivity |]. simpl. rewrite Z.div_1_r. auto.
  - rewrite iter_pos_nat.
    pose proof (shr_iter_spec (Pos.to_nat p) m Hm) as HS. cbn zeta in HS.
    rewrite positive_nat_Z in HS.
    replace (Z.max 0 (Z.pos p)) with (Z.pos p) by lia.
    eexists; split; [reflexivity | exact HS].
  - replace (Z.max 0 (Z.neg p)) with 0 by lia.
    rewrite Z.add_0_r.
    eexists; split; [reflexivity |]. simpl. rewrite Z.div_1_r. auto.
Qed.

(** Rounding an exact integer mantissa: one shift to the target
    exponent, a rounding step that adds at most one, and a second shift
    that renormalises after a carry. *)
Lemma binary_round_aux_shape s mx ex :
  0 <= mx ->
  let n1 := Z.max 0 (fexp32 (Zdigits2 mx + ex) - ex) in
  exists mr,
    mx / 2 ^ n1 <= mr <= mx / 2 ^ n1 + 1 /\
    (mx mod 2 ^ n1 = 0 -> mr = mx / 2 ^ n1) /\
    let e1 := ex + n1 in
    let n2 := Z.max 0 (fexp32 (Zdigits2 mr + e1) - e1) in
    binary_round_aux prec emax s mx ex loc_Exact =
    match mr / 2 ^ n2 with
    | 0 => S754_zero s
    | Zpos m =>
        if e1 + n2 <=? emax - prec then S754_finite s m (e1 + n2)
        else S754_infinity s
    | Zneg _ => S754_nan
    end.
Proof.
  intros Hmx n1.
  destruct (shr_fexp_spec mx ex Hmx) as (mrs1 & E1 & Hq1 & Hx1).
  fold n1 in E1, Hq1, Hx1.
  pose proof (round_nearest_even_bounds mrs1) as [Hb Hex]. cbn zeta in Hb, Hex.
  set (mr := round_nearest_even (shr_m mrs1) (loc_of_shr_record mrs1)) in *.
  assert (H2 : 0 < 2 ^ n1) by (apply Z.pow_pos_nonneg; lia).
  assert (Hq0 : 0 <= mx / 2 ^ n1) by (apply Z.div_pos; lia).
  exists mr. rewrite Hq1 in Hb. split; [exact Hb |]. split.
  - intros Hmod. destruct (Hx1 Hmod) as [Hr Hs].
    rewrite (Hex Hr Hs). exact Hq1.
  - cbn zeta.
    destruct (shr_fexp_spec mr (ex + n1)) as (mrs2 & E2 & Hq2 & _); [lia |].
    unfold binary_round_aux. rewrite E1. fold mr. rewrite E2, Hq2.
    reflexivity.
Qed.

(** When no non-zero bit is shifted out, rounding is exact and the
    result is the canonical representation of the same value. *)
Lemma binary_round_aux_exact s mx ex :
  0 < mx ->
  let fe := fexp32 (Zdigits2 mx + ex) in
  ex <= fe -> fe <= 104 -> mx mod 2 ^ (fe - ex) = 0 ->
  exists m,
    Zpos m = mx / 2 ^ (fe - ex) /\
    bounded prec emax m fe = true /\
    binary_round_aux prec emax s mx ex loc_Exact = S754_finite s m fe.
Proof.
  intros Hmx fe Hle Hfe Hmod.
  destruct (binary_round_aux_shape s mx ex) as (mr & _ & Hx & Heq); [lia |].
  cbn zeta in Heq. fold fe in Hx, Heq.
  replace (Z.max 0 (fe - ex)) with (fe - ex) in * by lia.
  replace (ex + (fe - ex)) with fe in Heq by lia.
  specialize (Hx Hmod). subst mr.
  assert (H2 : 0 < 2 ^ (fe - ex)) by (apply Z.pow_pos_nonneg; lia).
  assert (Hdiv : mx = 2 ^ (fe - ex) * (mx / 2 ^ (fe - ex)))
    by (apply Z_div_exact_full_2; lia).
  assert (Hq : 0 < mx / 2 ^ (fe - ex)) by nia.
  assert (Hd : Zdigits2 (mx / 2 ^ (fe - ex)) = Zdigits2 mx - (fe - ex))
    by (apply Zdigits2_div_pow; nia).
  rewrite Hd in Heq.
  replace (Zdigits2 mx - (fe - ex) + fe) with (Zdigits2 mx + ex) in Heq by lia.
  fold fe in Heq. replace (Z.max 0 (fe - fe)) with 0 in Heq by lia.
  rewrite Z.div_1_r, Z.add_0_r in Heq.
  destruct (mx / 2 ^ (fe - ex)) as [| m | m] eqn:Em; try lia.
  exists m. split; [reflexivity |]. split.
  - unfold bounded, canonical_mantissa. fold (fexp32 (Zpos (digits2_pos m) + fe)).
    change (Zpos (digits2_pos m)) with (Zdigits2 (Zpos m)). rewrite Hd.
    replace (Zdigits2 mx - (fe - ex) + fe) with (Zdigits2 mx + ex) by lia.
    fold fe. rewrite Z.eqb_refl. simpl. apply Z.leb_le. exact Hfe.
  - rewrite Heq. replace (fe <=? emax - prec) with true; [reflexivity |].
    symmetry. apply Z.leb_le. exact Hfe.
Qed.

(** Rounding never crosses a power of two: a value at most [2^k] rounds
    to a canonical number that is still at most [2^k]. *)
Lemma binary_round_aux_le_pow2 s mx ex k :
  0 < mx -> ex <= fexp32 (Zdigits2 mx + ex) ->
  -149 <= k <= 104 -> mx <= 2 ^ (k - ex) ->
  binary_round_aux prec emax s mx ex loc_Exact = S754_zero s \/
  exists m e,
    binary_round_aux prec emax s mx ex loc_Exact = S754_finite s m e /\
    bounded prec emax m e = true /\ e <= k /\ Zpos m <= 2 ^ (k - e).
Proof.
  intros Hmx Hle Hk Hb.
  assert (Hek : ex <= k).
  { destruct (Z.le_gt_cases ex k); trivial.
    rewrite Z.pow_neg_r in Hb by lia. lia. }
  destruct (binary_round_aux_shape s mx ex) as (mr & Hmr & Hx & Heq); [lia |].
  cbn zeta in Heq.
  set (fe := fexp32 (Zdigits2 mx + ex)) in *.
  replace (Z.max 0 (fe - ex)) with (fe - ex) in * by lia.
  replace (ex + (fe - ex)) with fe in Heq by lia.
  set (n1 := fe - ex) in *. set (q := mx / 2 ^ n1) in *.
  pose proof (Zdigits2_le_pow mx (k - ex) Hmx ltac:(lia) Hb) as Hd.
  assert (Hfek : fe <= k) by (unfold fe; rewrite fexp32_eq; lia).
  assert (Hfe149 : -149 <= fe) by (unfold fe; rewrite fexp32_eq; lia).
  assert (H2 : 0 < 2 ^ n1) by (apply Z.pow_pos_nonneg; lia).
  set (P := 2 ^ (k - fe)).
  assert (HP : 0 < P) by (apply Z.pow_pos_nonneg; lia).
  assert (Hsplit : 2 ^ (k - ex) = P * 2 ^ n1).
  { unfold P, n1. rewrite <- Z.pow_add_r by lia. f_equal. lia. }
  pose proof (Z.div_mod mx (2 ^ n1) ltac:(lia)) as Hdm. fold q in Hdm.
  pose proof (Z.mod_pos_bound mx (2 ^ n1) H2) as Hrem.
  assert (Hq0 : 0 <= q) by (apply Z.div_pos; lia).
  assert (HmrP : mr <= P).
  { destruct (Z.eq_dec (mx mod 2 ^ n1) 0) as [E0 | N0].
    - rewrite (Hx E0). nia.
    - assert (q < P) by nia. lia. }
  set (n2 := Z.max 0 (fexp32 (Zdigits2 mr + fe) - fe)) in *.
  assert (Hn2 : 0 <= n2) by (unfold n2; lia).
  assert (H22 : 0 < 2 ^ n2) by (apply Z.pow_pos_nonneg; lia).
  destruct (mr / 2 ^ n2) as [| m | m] eqn:Em.
  - left. exact Heq.
  - right.
    assert (Hmr0 : 0 < mr).
    { destruct (Z.le_gt_cases mr 0); trivial.
      assert (mr = 0) by lia. subst mr. rewrite Z.div_0_l in Em by lia.
      discriminate. }
    pose proof (Zdigits2_le_pow mr (k - fe) Hmr0 ltac:(lia) HmrP) as Hdr.
    pose proof (Zdigits2_pos mr Hmr0) as Hdr0.
    assert (He2 : fe + n2 <= k) by (unfold n2; rewrite fexp32_eq; lia).
    exists m, (fe + n2). split; [| split; [| split]].
    + rewrite Heq. replace (fe + n2 <=? emax - prec) with true; [reflexivity |].
      symmetry. apply Z.leb_le. unfold emax, prec. lia.
    + unfold bounded, canonical_mantissa.
      fold (fexp32 (Zpos (digits2_pos m) + (fe + n2))).
      change (Zpos (digits2_pos m)) with (Zdigits2 (Zpos m)).
      apply andb_true_intro. split; [| apply Z.leb_le; unfold emax, prec; lia].
      apply Z.eqb_eq. rewrite <- Em.
      destruct (Z.eq_dec n2 0) as [E2 | N2].
      * rewrite E2, Z.div_1_r, Z.add_0_r.
        assert (Hup : fexp32 (Zdigits2 mr + fe) <= fe) by (unfold n2 in E2; lia).
        assert (Hlo : fe <= fexp32 (Zdigits2 mr + fe)); [| lia].
        destruct (Z.eq_dec q 0) as [Eq0 | Nq0].
        -- assert (mr = 1) by lia. subst mr.
           assert (Hdx : Zdigits2 mx <= n1) by (apply Zdigits2_lt_pow; lia).
           assert (fe = -149).
           { assert (Hfe := eq_refl fe). unfold fe at 2 in Hfe.
             rewrite fexp32_eq in Hfe. lia. }
           rewrite fexp32_eq. simpl Zdigits2. lia.
        -- assert (Hq1 : 2 ^ n1 <= mx) by nia.
           pose proof (Zdigits2_div_pow mx n1 ltac:(lia) Hq1) as Hdq.
           fold q in Hdq.
           pose proof (Zdigits2_mono q mr ltac:(lia) ltac:(lia)) as Hmono.
           unfold fe at 1. apply fexp32_mono. lia.
      * assert (Hm2 : 2 ^ n2 <= mr).
        { pose proof (Z.div_mod mr (2 ^ n2) ltac:(lia)) as Hdm2.
          pose proof (Z.mod_pos_bound mr (2 ^ n2) H22). rewrite Em in Hdm2.
          nia. }
        rewrite Zdigits2_div_pow by lia.
        replace (Zdigits2 mr - n2 + (fe + n2)) with (Zdigits2 mr + fe) by lia.
        unfold n2. lia.
    + exact He2.
    + rewrite <- Em. apply Z.div_le_upper_bound; [lia |].
      assert (P = 2 ^ n2 * 2 ^ (k - (fe + n2))).
      { unfold P. rewrite <- Z.pow_add_r by lia. f_equal. lia. }
      lia.
  - pose proof (Z.div_pos mr (2 ^ n2) ltac:(lia) H22) as Hnn.
    rewrite Em in Hnn. lia.
Qed.

(** ** Aligning to a smaller exponent, and [binary_round] *)

Lemma iter_xO_pow m d : Zpos (Pos.iter xO m d) = Zpos m * 2 ^ Zpos d.
Proof.
  induction d as [| d IH] using Pos.peano_ind.
  - simpl. lia.
  - rewrite Pos.iter_succ, Pos2Z.inj_xO, IH, Pos2Z.inj_succ, Z.pow_succ_r by lia.
    lia.
Qed.

Lemma shl_align_spec mx ex ex' :
  exists mz,
    shl_align mx ex ex' = (mz, Z.min ex ex') /\
    Zpos mz = Zpos mx * 2 ^ (ex - Z.min ex ex').
Proof.
  unfold shl_align. destruct (ex' - ex) as [| d | d] eqn:E.
  - exists mx. replace (Z.min ex ex') with ex by lia.
    rewrite Z.sub_diag. split; [reflexivity | simpl; lia].
  - exists mx. replace (Z.min ex ex') with ex by lia.
    rewrite Z.sub_diag. split; [reflexivity | simpl; lia].
  - exists (Pos.iter xO mx d). replace (Z.min ex ex') with ex' by lia.
    split; [reflexivity |]. rewrite iter_xO_pow. f_equal. f_equal. lia.
Qed.

Lemma binary_round_exact s M e :
  let fe := fexp32 (Zdigits2 (Zpos M) + e) in
  fe <= e -> fe <= 104 ->
  exists m,
    Zpos m = Zpos M * 2 ^ (e - fe) /\
    bounded prec emax m fe = true /\
    binary_round prec emax s M e = S754_finite s m fe.
Proof.
  intros fe Hle H104. unfold binary_round.
  change (Zpos (digits2_pos M)) with (Zdigits2 (Zpos M)).
  fold (fexp32 (Zdigits2 (Zpos M) + e)). fold fe.
  destruct (shl_align_spec M e fe) as (mz & -> & Hmz).
  replace (Z.min e fe) with fe in * by lia.
  assert (Hd : Zdigits2 (Zpos mz) + fe = Zdigits2 (Zpos M) + e).
  { rewrite Hmz, Zdigits2_mul_pow by lia. lia. }
  pose proof (binary_round_aux_exact s (Zpos mz) fe) as HE. cbn zeta in HE.
  rewrite Hd in HE. fold fe in HE. rewrite Z.sub_diag, Z.div_1_r in HE.
  destruct HE as (m & Hm & Hbd & Heq); try lia.
  { apply Z.mod_1_r. }
  exists m. split; [lia |]. split; [exact Hbd | exact Heq].
Qed.

Lemma binary_round_le_pow2 s M e k :
  -149 <= k <= 104 -> Zpos M <= 2 ^ (k - e) ->
  binary_round prec emax s M e = S754_zero s \/
  exists m e',
    binary_round prec emax s M e = S754_finite s m e' /\
    bounded prec emax m e' = true /\ e' <= k /\ Zpos m <= 2 ^ (k - e').
Proof.
  intros Hk Hb.
  assert (Hek : e <= k).
  { destruct (Z.le_gt_cases e k); trivial.
    rewrite Z.pow_neg_r in Hb by lia. lia. }
  unfold binary_round.
  change (Zpos (digits2_pos M)) with (Zdigits2 (Zpos M)).
  fold (fexp32 (Zdigits2 (Zpos M) + e)).
  set (fe := fexp32 (Zdigits2 (Zpos M) + e)).
  destruct (shl_align_spec M e fe) as (mz & -> & Hmz).
  set (ez := Z.min e fe) in *.
  assert (Hd : Zdigits2 (Zpos mz) + ez = Zdigits2 (Zpos M) + e).
  { rewrite Hmz, Zdigits2_mul_pow by lia. lia. }
  apply binary_round_aux_le_pow2; try lia.
  - rewrite Hd. fold fe. lia.
  - rewrite Hmz.
    replace (k - ez) with ((k - e) + (e - ez)) by lia.
    rewrite Z.pow_add_r by lia.
    apply Z.mul_le_mono_nonneg_r; [apply Z.pow_nonneg; lia | exact Hb].
Qed.

(** ** Comparisons against [1] and [-1] *)

Lemma bounded_inv m e :
  bounded prec emax m e = true ->
  fexp32 (Zdigits2 (Zpos m) + e) = e /\ e <= 104.
Proof.
  unfold bounded, canonical_mantissa. intros Hb.
  apply andb_prop in Hb. destruct Hb as [Hc He].
  apply Z.eqb_eq in Hc. apply Z.leb_le in He. split; [exact Hc | exact He].
Qed.

Lemma ltb_one_pos m e :
  e <= -24 -> ltb (S754_finite false m e) one = true.
Proof.
  intros He. unfold ltb, SFltb, one, SFcompare.
  destruct (Z.compare_spec e (-23)); first [lia | reflexivity].
Qed.

Lemma leb_minus_one_neg m e :
  bounded prec emax m e = true -> e <= 0 -> Zpos m <= 2 ^ (0 - e) ->
  leb minus_one (S754_finite true m e) = true.
Proof.
  intros Hbd He Hm. apply bounded_inv in Hbd. destruct Hbd as [Hc _].
  rewrite fexp32_eq in Hc.
  pose proof (Zdigits2_bounds (Zpos m) ltac:(lia)) as [Hlo _].
  unfold leb, SFleb, minus_one, SFcompare.
  destruct (Z.compare_spec (-23) e) as [E | L | G].
  - subst e. change (2 ^ (0 - -23)) with 8388608 in Hm.
    rewrite Pos.compare_cont_spec. simpl.
    destruct (Pos.compare_spec 8388608 m) as [E | L | G]; simpl; trivial.
    lia.
  - exfalso.
    assert (Hd : Zdigits2 (Zpos m) = 24) by lia. rewrite Hd in Hlo.
    change (2 ^ (24 - 1)) with 8388608 in Hlo.
    assert (2 ^ (0 - e) <= 2 ^ 22) by (apply Z.pow_le_mono_r; lia).
    change (2 ^ 22) with 4194304 in H. lia.
  - reflexivity.
Qed.
End Binary32.

Section PointCoord.
Import F32.

Lemma mul_two_exact m e :
  bounded prec emax m e = true -> e <= -24 ->
  exists m' e',
    mul (S754_finite false m e) two = S754_finite false m' e' /\
    bounded prec emax m' e' = true /\ e' <= -23.
Proof.
  intros Hbd He. destruct (bounded_inv _ _ Hbd) as [Hc _].
  change (mul (S754_finite false m e) two)
    with (binary_round_aux prec emax false (Zpos (m * 8388608)) (e + -22) loc_Exact).
  assert (Hd : Zdigits2 (Zpos (m * 8388608)) = Zdigits2 (Zpos m) + 23).
  { rewrite Pos2Z.inj_mul. change (Zpos 8388608) with (2 ^ 23).
    apply Zdigits2_mul_pow; lia. }
  pose proof (binary_round_aux_exact false (Zpos (m * 8388608)) (e + -22)
                ltac:(lia)) as HE.
  cbn zeta in HE. rewrite Hd in HE.
  set (fe := fexp32 (Zdigits2 (Zpos m) + 23 + (e + -22))) in *.
  assert (Hfe : e <= fe <= e + 1).
  { unfold fe. rewrite fexp32_eq in *. lia. }
  destruct HE as (m' & _ & Hbd' & Heq); try lia.
  - rewrite Pos2Z.inj_mul. change (Zpos 8388608) with (2 ^ 23).
    replace 23 with ((23 - (fe - (e + -22))) + (fe - (e + -22))) at 1 by lia.
    rewrite Z.pow_add_r by lia. rewrite Z.mul_assoc. apply Z.mod_mul.
    apply Z.pow_nonzero; lia.
  - exists m', fe. split; [exact Heq |]. split; [exact Hbd' | lia].
Qed.

(** [x - 1] for a canonical [x] in [[0, 2)]. *)
Lemma sub_one_range m e :
  bounded prec emax m e = true -> e <= -23 ->
  let r := sub (S754_finite false m e) one in
  valid r = true /\ leb minus_one r = true /\ ltb r one = true.
Proof.
  intros Hbd He r. destruct (bounded_inv _ _ Hbd) as [Hc _].
  rewrite fexp32_eq in Hc.
  pose proof (Zdigits2_bounds (Zpos m) ltac:(lia)) as [Hlo Hhi].
  assert (Hm24 : Zpos m < 2 ^ 24).
  { eapply Z.lt_le_trans; [exact Hhi |]. apply Z.pow_le_mono_r; lia. }
  subst r.
  change (sub (S754_finite false m e) one)
    with (binary_normalize prec emax
            (Zpos (fst (shl_align m e (Z.min e (-23))))
             - Zpos (fst (shl_align 8388608 (-23) (Z.min e (-23)))))
            (Z.min e (-23)) false).
  replace (Z.min e (-23)) with e by lia.
  destruct (shl_align_spec m e e) as (m1 & E1 & H1).
  destruct (shl_align_spec 8388608 (-23) e) as (m2 & E2 & H2).
  replace (Z.min e e) with e in * by lia.
  replace (Z.min (-23) e) with e in * by lia.
  rewrite E1, E2. cbn [fst]. rewrite H1, H2, Z.sub_diag, Z.mul_1_r.
  change (Zpos 8388608) with (2 ^ 23).
  rewrite <- Z.pow_add_r by lia. replace (23 + (-23 - e)) with (- e) by lia.
  destruct (Z.eq_dec e (-23)) as [E | N].
  - (* x in [1, 2): the difference is exact *)
    subst e. change (2 ^ (- (-23))) with 8388608.
    assert (Hd : Zdigits2 (Zpos m) = 24) by lia. rewrite Hd in Hlo.
    change (2 ^ (24 - 1)) with 8388608 in Hlo.
    change (2 ^ 24) with 16777216 in Hm24.
    destruct (Zpos m - 8388608) as [| p | p] eqn:Ep; try lia.
    + simpl. auto.
    + unfold binary_normalize.
      pose proof (binary_round_exact false p (-23)) as HE. cbn zeta in HE.
      assert (Hdp : Zdigits2 (Zpos p) <= 23)
        by (apply Zdigits2_lt_pow; try lia; change (2 ^ 23) with 8388608; lia).
      pose proof (Zdigits2_pos (Zpos p) ltac:(lia)) as Hdp0.
      set (fe := fexp32 (Zdigits2 (Zpos p) + -23)) in *.
      assert (Hfe : fe <= -24) by (unfold fe; rewrite fexp32_eq; lia).
      destruct HE as (m' & _ & Hbd' & Heq); try lia.
      rewrite Heq. split; [exact Hbd' |]. split; [reflexivity |].
      apply ltb_one_pos. exact Hfe.
  - (* x in (0, 1): the difference is negative, at least -1 *)
    assert (He' : e <= -24) by lia.
    assert (H2e : 2 ^ 24 <= 2 ^ (- e)) by (apply Z.pow_le_mono_r; lia).
    destruct (Zpos m - 2 ^ (- e)) as [| p | p] eqn:Ep; try lia.
    unfold binary_normalize.
    destruct (binary_round_le_pow2 true p e 0) as [Hz | (m' & e' & Heq & Hbd' & He0 & Hm')];
      try lia.
    + replace (0 - e) with (- e) by lia. lia.
    + rewrite Hz. simpl. auto.
    + rewrite Heq. split; [exact Hbd' |]. split; [| reflexivity].
      apply leb_minus_one_neg; trivial.
Qed.

(** Every value of [rand.Float32()*2 - 1] is a [float32] in [[-1, 1)]. *)
Lemma point_coord_range v :
  unit_interval v ->
  valid (point_coord v) = true /\
  leb minus_one (point_coord v) = true /\
  ltb (point_coord v) one = true.
Proof.
  intros (Hv & H0 & H1). unfold point_coord.
  destruct v as [s | s | | s m e].
  - destruct s; vm_compute; auto.
  - destruct s; discriminate.
  - discriminate.
  - destruct s; [discriminate |].
    assert (He : e <= -24).
    { unfold ltb, SFltb, one, SFcompare in H1.
      destruct (Z.compare_spec e (-23)) as [E | L | G]; try discriminate; try lia.
      exfalso. subst e.
      rewrite Pos.compare_cont_spec in H1. simpl in H1.
      destruct (Pos.compare_spec m 8388608) as [E | L | G]; try discriminate.
      destruct (bounded_inv _ _ Hv) as [Hc _]. rewrite fexp32_eq in Hc.
      assert (Hd : Zdigits2 (Zpos m) <= 23).
      { apply Zdigits2_lt_pow; [reflexivity | discriminate |].
        change (2 ^ 23) with 8388608. apply Pos2Z.pos_lt_pos. exact L. }
      clear - Hc Hd. lia. }
    destruct (mul_two_exact m e Hv He) as (m' & e' & -> & Hbd' & He').
    apply sub_one_range; trivial.
Qed.
End PointCoord.

(* ===================================================================== *)
(** * The point set                                                       *)
(* ===================================================================== *)

Section Points.

(** Writing [f 0], ..., [f (n-1)] into the first [n] cells of a slice. *)
Lemma foldl_insert_seq {A} (f : nat -> A) (n : nat) (l : list A) :
  (n <= length l)%nat ->
  foldl (fun pts i => <[i := f i]> pts) l (seq 0 n) = map f (seq 0 n) ++ drop n l.
Proof.
  induction n as [| n IH]; intros Hn.
  - reflexivity.
  - rewrite seq_S, foldl_app, map_app. simpl.
    rewrite IH by lia.
    assert (Hlen : length (map f (seq 0 n)) = n)
      by (rewrite length_map, length_seq; reflexivity).
    rewrite insert_app_r_alt by lia. rewrite Hlen, Nat.sub_diag.
    destruct (lookup_lt_is_Some_2 l n ltac:(lia)) as [y Hy].
    rewrite (drop_S l y n Hy). simpl. rewrite <- app_assoc. reflexivity.
Qed.

Lemma fill_points_eq rnd :
  fill_points rnd = map (fun i => point_coord (rnd i)) (seq 0 300).
Proof.
  unfold fill_points.
  rewrite (foldl_insert_seq (fun i => point_coord (rnd i))).
  - rewrite drop_ge by (rewrite length_replicate; lia). apply app_nil_r.
  - rewrite length_replicate. lia.
Qed.

Lemma fill_points_length rnd : length (fill_points rnd) = 300%nat.
Proof. rewrite fill_points_eq, length_map, length_seq. reflexivity. Qed.

Lemma fill_points_lookup rnd i p :
  fill_points rnd !! i = Some p -> (i < 300)%nat /\ p = point_coord (rnd i).
Proof.
  rewrite fill_points_eq, list_lookup_fmap. intros Hl.
  destruct (seq 0 300 !! i) as [j |] eqn:E; [| discriminate].
  apply lookup_seq in E. destruct E as [-> Hi]. simpl in Hl.
  split; [lia | congruence].
Qed.

Lemma triples_length (k : nat) : forall l,
  length l = (3 * k)%nat ->
  length (triples l) = k /\ flatten (triples l) = l.
Proof.
  induction k as [| k IH]; intros l Hl.
  - destruct l; [split; reflexivity | discriminate].
  - destruct l as [| x [| y [| z rest]]]; simpl in Hl; try lia.
    destruct (IH rest ltac:(lia)) as [H1 H2].
    split; [simpl; congruence |].
    change (flatten (triples (x :: y :: z :: rest)))
      with (x :: y :: z :: flatten (triples rest)).
    rewrite H2. reflexivity.
Qed.

End Points.

(* ===================================================================== *)
(** * Traces                                                              *)
(* ===================================================================== *)

Lemma count_app p t1 t2 : count p (t1 ++ t2) = (count p t1 + count p t2)%nat.
Proof.
  induction t1 as [| e t1 IH]; simpl; [reflexivity |].
  destruct (p e); rewrite IH; reflexivity.
Qed.

Lemma count_replicate p n e :
  count p (replicate n e) = if p e then n else 0%nat.
Proof.
  induction n as [| n IH]; simpl.
  - destruct (p e); reflexivity.
  - rewrite IH. destruct (p e); reflexivity.
Qed.

Lemma count_map_GL p cs :
  (forall c, p (GL c) = false) -> count p (map GL cs) = 0%nat.
Proof.
  intros Hp. induction cs as [| c cs IH]; simpl; [reflexivity |].
  rewrite Hp. exact IH.
Qed.

Lemma gl_run_app g t1 t2 : gl_run g (t1 ++ t2) = gl_run (gl_run g t1) t2.
Proof. unfold gl_run. apply foldl_app. Qed.

Lemma gl_run_replicate_rand g n : gl_run g (replicate n rand_Float32) = g.
Proof. induction n as [| n IH]; simpl; [reflexivity | exact IH]. Qed.

(* ===================================================================== *)
(** * The frame loop                                                      *)
(* ===================================================================== *)

Section Frames.
Context `{MathLib}.

Lemma set_angle_id st : set_angle (angle st) st = st.
Proof. destruct st; reflexivity. Qed.

Lemma render_ok st :
  is_object (gl st) = true ->
  render st =
  Some (set_angle (F32.add (angle st) angle_step) st,
        [ GL (uniformMatrix4fv (mvpLoc st) false
                (mvp (F32.add (angle st) angle_step)));
          GL (clear COLOR_BUFFER_BIT);
          GL (drawArrays POINTS 0 100);
          requestAnimationFrame ]).
Proof. intros Hgl. unfold render. rewrite Hgl. reflexivity. Qed.

(** The frame loop never panics, and its state after [n] ticks is the
    start state with the angle advanced [n] times. *)
Lemma frames_ok n : forall st,
  is_object (gl st) = true ->
  exists t,
    frames n st =
    Some (set_angle (Nat.iter n (fun a => F32.add a angle_step) (angle st)) st, t).
Proof.
  induction n as [| n IH]; intros st Hgl.
  - exists []. simpl. rewrite set_angle_id. reflexivity.
  - cbn [frames]. rewrite render_ok by exact Hgl.
    destruct (IH (set_angle (F32.add (angle st) angle_step) st) Hgl) as [t Ht].
    rewrite Ht. eexists. rewrite Nat.iter_succ_r. reflexivity.
Qed.

(** What one frame's calls do to the context: nothing to the buffers,
    the bindings, the program or the attribute arrays. *)
Lemma render_context g st st' t :
  render st = Some (st', t) ->
  buffer_store (gl_run g t) = buffer_store g /\
  array_buffer_binding (gl_run g t) = array_buffer_binding g /\
  current_program (gl_run g t) = current_program g /\
  attribs (gl_run g t) = attribs g /\
  draws (gl_run g t) = draws g ++ [(POINTS, 0, 100)] /\
  clears (gl_run g t) = S (clears g).
Proof.
  unfold render. destruct (is_object (gl st)); [| discriminate].
  intros [= <- <-]. destruct (mvpLoc st); simpl; auto 10.
Qed.

Lemma frames_context n : forall g st st' t,
  frames n st = Some (st', t) ->
  buffer_store (gl_run g t) = buffer_store g /\
  array_buffer_binding (gl_run g t) = array_buffer_binding g /\
  current_program (gl_run g t) = current_program g /\
  attribs (gl_run g t) = attribs g /\
  draws (gl_run g t) = draws g ++ replicate n (POINTS, 0, 100) /\
  clears (gl_run g t) = (clears g + n)%nat /\
  count is_rand t = 0%nat.
Proof.
  induction n as [| n IH]; intros g st st' t.
  - intros [= <- <-]. simpl. rewrite app_nil_r, Nat.add_0_r. auto 10.
  - cbn [frames]. destruct (render st) as [[st1 t1] |] eqn:E1; [| discriminate].
    destruct (frames n st1) as [[st2 t2] |] eqn:E2; [| discriminate].
    intros [= <- <-].
    destruct (render_context g _ _ _ E1) as (A1 & A2 & A3 & A4 & A5 & A6).
    destruct (IH (gl_run g t1) _ _ _ E2) as (B1 & B2 & B3 & B4 & B5 & B6 & B7).
    rewrite gl_run_app, count_app, B1, B2, B3, B4, B5, B6, B7, A1, A2, A3, A4, A5, A6.
    assert (count is_rand t1 = 0%nat) as ->.
    { unfold render in E1. destruct (is_object (gl st)); [| discriminate].
      injection E1 as <- <-. reflexivity. }
    rewrite <- app_assoc. repeat split; try reflexivity. lia.
Qed.

End Frames.

(* ===================================================================== *)
(** * Start-up                                                            *)
(* ===================================================================== *)

Lemma is_object_not_null v : is_object v = true -> IsNull v = false.
Proof. destruct v; simpl; congruence. Qed.

Lemma main_ok h :
  is_object (h_canvas h) = true -> is_object (h_context h) = true ->
  main h =
  ([getElementById "canvas"; getContext "webgl"]
     ++ map GL clear_calls
     ++ replicate 300 rand_Float32
     ++ map GL (setup_calls h (fill_points (h_rand h)))
     ++ [requestAnimationFrame],
   Blocked (initial_state h (fill_points (h_rand h)))).
Proof.
  intros Hc Hg. unfold main.
  rewrite Hc, (is_object_not_null _ Hg), Hg. reflexivity.
Qed.

(** The context when the frame loop starts: one buffer holding the
    points, bound to the position attribute with three components per
    vertex, tightly packed, from offset 0. *)
Lemma main_context h b loc :
  is_object (h_canvas h) = true -> is_object (h_context h) = true ->
  h_buffer h = JSObject b -> h_positionLoc h = JSNumber loc -> 0 <= loc ->
  let g := gl_run gl_init (fst (main h)) in
  buffer_store g = {[ b := fill_points (h_rand h) ]} /\
  attribs g = {[ loc := position_attrib b ]} /\
  array_buffer_binding g = JSObject b /\
  current_program g = h_program h /\
  draws g = [] /\ clears g = 1%nat.
Proof.
  intros Hc Hg Hb Hl Hloc g. subst g.
  rewrite main_ok by assumption. cbn [fst].
  rewrite !gl_run_app, gl_run_replicate_rand.
  unfold setup_calls, clear_calls. rewrite Hb, Hl.
  cbn [gl_run foldl map gl_exec gl_init array_buffer_binding buffer_store
       current_program attribs uniforms clears draws].
  apply Z.leb_le in Hloc. rewrite Hloc.
  cbn [gl_run foldl map gl_exec gl_init array_buffer_binding buffer_store
       current_program attribs uniforms clears draws].
  unfold attrib_of.
  cbn [array_buffer_binding buffer_store current_program attribs uniforms
       clears draws].
  rewrite lookup_insert_eq, lookup_empty, insert_insert_eq.
  cbn [default a_enabled a_size a_stride a_offset a_buffer default_attrib
       from_option].
  repeat split; reflexivity.
Qed.

(* ===================================================================== *)
(** * Accumulated rounding error of the angle                             *)
(* ===================================================================== *)

Lemma all_close_sound k : forall n a,
  all_close k n a = true ->
  forall j, (j <= k)%nat ->
  close_to (n + Z.of_nat j) (Nat.iter j (fun x => F32.add x angle_step) a) = true.
Proof.
  induction k as [| k IH]; intros n a Hall j Hj.
  - assert (j = 0%nat) as -> by lia. simpl in *.
    rewrite Z.add_0_r. apply andb_prop in Hall. tauto.
  - cbn [all_close] in Hall. apply andb_prop in Hall. destruct Hall as [H0 Hk].
    destruct j as [| j].
    + simpl. rewrite Z.add_0_r. exact H0.
    + rewrite Nat.iter_succ_r.
      replace (n + Z.of_nat (S j)) with ((n + 1) + Z.of_nat j) by lia.
      apply IH; [exact Hk | lia].
Qed.

(** During the first 1000 frames the angle stays within a relative error
    of [2^-16] of [n * 0.01]. *)
Lemma first_frames_close n :
  (n <= 1000)%nat ->
  close_to (Z.of_nat n) (Nat.iter n (fun x => F32.add x angle_step) F32.zero) = true.
Proof.
  intros Hn.
  apply (all_close_sound 1000 0 F32.zero); [vm_compute; reflexivity | exact Hn].
Qed.

(** The sum stops growing: at [2^18] the step is less than half the
    spacing of [float32], and adding it changes nothing. *)
Lemma angle_saturates :
  F32.add (F32.of_Z 262144) angle_step = F32.of_Z 262144.
Proof. vm_compute. reflexivity. Qed.

(* ===================================================================== *)
(** * Properties of the renderer                                          *)
(* ===================================================================== *)

Section RendererClaims.
Context `{MathLib}.

(** C1: every frame tick performs exactly one uniform matrix upload, one
    clear of the colour buffer and one draw call, of 100 unconnected
    points starting at vertex 0; these are all the calls made on the
    context, in the order upload, clear, draw. *)
Theorem frame_upload_clear_draw st :
  is_object (gl st) = true ->
  exists st' t,
    render st = Some (st', t) /\
    count is_uniform_upload t = 1%nat /\
    count is_clear t = 1%nat /\
    count is_draw t = 1%nat /\
    gl_calls t =
      [ uniformMatrix4fv (mvpLoc st) false (mvp (angle st'));
        clear COLOR_BUFFER_BIT;
        drawArrays POINTS 0 100 ].
Proof.
  intros Hgl. rewrite (render_ok st Hgl).
  do 2 eexists. split; [reflexivity |]. repeat split; reflexivity.
Qed.

(** C2: whatever the angle, the matrix of the frame step is the identity
    on the Y axis (scale 1, no coupling with X, Z or the translation),
    translates by -2 along Z and by nothing along X and Y, and has the
    cosine and sine of the angle as the rotation entries of the X-Z
    plane. *)
Theorem view_matrix_entries a :
  let s := F64.to_f32 (math_Sin (F64.of_f32 a)) in
  let c := F64.to_f32 (math_Cos (F64.of_f32 a)) in
  let m := mvp a in
  length m = 16%nat /\
  (* Y axis *)
  entry m 1 1 = Some F32.one /\
  entry m 1 0 = Some F32.zero /\ entry m 1 2 = Some F32.zero /\
  entry m 0 1 = Some F32.zero /\ entry m 2 1 = Some F32.zero /\
  (* translation *)
  entry m 0 3 = Some F32.zero /\ entry m 1 3 = Some F32.zero /\
  entry m 2 3 = Some F32.minus_two /\
  (* rotation in the X-Z plane *)
  entry m 0 0 = Some c /\ entry m 2 0 = Some s /\
  entry m 0 2 = Some (F32.neg s) /\ entry m 2 2 = Some c /\
  (* last row *)
  entry m 3 0 = Some F32.zero /\ entry m 3 1 = Some F32.zero /\
  entry m 3 2 = Some F32.zero /\ entry m 3 3 = Some F32.one /\
  (* the constants are the numbers 1 and -2 *)
  F32.scaled F32.one = 2 ^ 149 /\ F32.scaled F32.minus_two = - 2 * 2 ^ 149.
Proof. cbn zeta. repeat split; reflexivity. Qed.

(** C3: two invocations of the frame step in states with the same angle
    upload the same matrix, entry for entry, whatever else differs
    between the two states. *)
Theorem view_matrix_deterministic st1 st2 :
  is_object (gl st1) = true -> is_object (gl st2) = true ->
  angle st1 = angle st2 ->
  exists st1' t1 st2' t2 m1 m2,
    render st1 = Some (st1', t1) /\ render st2 = Some (st2', t2) /\
    uploaded t1 = [m1] /\ uploaded t2 = [m2] /\
    m1 = m2 /\ forall row col, entry m1 row col = entry m2 row col.
Proof.
  intros H1 H2 Ha. rewrite (render_ok st1 H1), (render_ok st2 H2), Ha.
  do 6 eexists. repeat split; reflexivity.
Qed.

(** C8: any number of frame ticks leaves every variable of the renderer
    other than the angle as it was, draws no random number, and leaves
    the buffers, the buffer binding, the program in use and the attribute
    arrays of the context as they were. *)
Theorem frames_change_only_angle n st :
  is_object (gl st) = true ->
  exists st' t,
    frames n st = Some (st', t) /\
    st' = set_angle (angle st') st /\
    gl st' = gl st /\ points st' = points st /\ buffer st' = buffer st /\
    vertexShader st' = vertexShader st /\
    fragmentShader st' = fragmentShader st /\
    program st' = program st /\ positionLoc st' = positionLoc st /\
    mvpLoc st' = mvpLoc st /\
    count is_rand t = 0%nat /\
    forall g,
      buffer_store (gl_run g t) = buffer_store g /\
      array_buffer_binding (gl_run g t) = array_buffer_binding g /\
      current_program (gl_run g t) = current_program g /\
      attribs (gl_run g t) = attribs g.
Proof.
  intros Hgl. destruct (frames_ok n st Hgl) as [t Ht].
  do 2 eexists. split; [exact Ht |].
  repeat (split; [reflexivity |]).
  split.
  - pose proof (frames_context n gl_init _ _ _ Ht). tauto.
  - intros g. pose proof (frames_context n g _ _ _ Ht). tauto.
Qed.

End RendererClaims.

(** C5: when the random source yields values of [[0, 1)], each of the 300
    generated coordinates is a [float32] [p] with [-1 <= p] and [p < 1]. *)
Theorem point_coords_in_range rnd :
  (forall k, (k < 300)%nat -> unit_interval (rnd k)) ->
  length (fill_points rnd) = 300%nat /\
  forall i p, fill_points rnd !! i = Some p ->
    F32.valid p = true /\
    F32.leb F32.minus_one p = true /\ F32.ltb p F32.one = true.
Proof.
  intros Hrnd. split; [apply fill_points_length |].
  intros i p Hp. apply fill_points_lookup in Hp. destruct Hp as [Hi ->].
  apply point_coord_range, Hrnd, Hi.
Qed.

(** C6: whatever the random source yields, the point set that [main]
    generates and uploads has exactly 300 coordinates, which read as
    exactly 100 points [(x, y, z)] with nothing left over; it takes 300
    draws from the random source. *)
Theorem point_set_size h :
  is_object (h_canvas h) = true -> is_object (h_context h) = true ->
  exists t st,
    main h = (t, Blocked st) /\
    points st = fill_points (h_rand h) /\
    length (points st) = 300%nat /\
    length (triples (points st)) = 100%nat /\
    flatten (triples (points st)) = points st /\
    count is_rand t = 300%nat /\
    In (bufferData ARRAY_BUFFER (points st) STATIC_DRAW) (gl_calls t).
Proof.
  intros Hc Hg. rewrite (main_ok h Hc Hg). do 2 eexists.
  split; [reflexivity |]. cbn [points initial_state].
  split; [reflexivity |].
  split; [apply fill_points_length |].
  pose proof (triples_length 100 (fill_points (h_rand h))
                (fill_points_length _)) as [H1 H2].
  split; [exact H1 |]. split; [exact H2 |]. split.
  - rewrite !count_app, count_replicate, count_map_GL by reflexivity.
    rewrite count_map_GL by reflexivity. reflexivity.
  - unfold gl_calls. rewrite !flat_map_app. rewrite !in_app_iff.
    right. right. right. left. simpl. auto.
Qed.

(** C7: when [getContext] yields [null], [main] shows one alert and
    returns: it asks for the context once, draws no random number, makes
    no call on a graphics context and registers no frame callback.  No
    other answer of the host leads to an alert. *)
Theorem context_failure_alerts_and_stops :
  (forall h,
     is_object (h_canvas h) = true -> IsNull (h_context h) = true ->
     main h = ([ getElementById "canvas"; getContext "webgl";
                 alert "WebGL not supported" ], Returned) /\
     count is_alert (fst (main h)) = 1%nat /\
     count is_getContext (fst (main h)) = 1%nat /\
     count is_rand (fst (main h)) = 0%nat /\
     count is_gl (fst (main h)) = 0%nat /\
     count is_requestAnimationFrame (fst (main h)) = 0%nat) /\
  (forall h,
     IsNull (h_context h) = false -> count is_alert (fst (main h)) = 0%nat).
Proof.
  split.
  - intros h Hc Hn. unfold main. rewrite Hc, Hn. simpl. auto 10.
  - intros h Hn. unfold main. rewrite Hn.
    destruct (is_object (h_canvas h)); [| reflexivity].
    destruct (is_object (h_context h)); [| reflexivity].
    cbn [negb fst].
    rewrite !count_app, count_replicate, !count_map_GL by reflexivity.
    reflexivity.
Qed.

Section BufferBounds.
Context `{MathLib}.

(** C10: the buffer uploaded at start-up holds 300 [float32] values (1200
    bytes) and is bound to the position attribute with 3 components per
    vertex, stride 0 and offset 0; every draw of every frame is
    [drawArrays(POINTS, 0, 100)]; vertex [i] reads bytes [12 i] to
    [12 i + 12], so all of vertices 0 to 99 lie inside the buffer. *)
Theorem draws_read_inside_buffer h b loc n :
  is_object (h_canvas h) = true -> is_object (h_context h) = true ->
  h_buffer h = JSObject b -> h_positionLoc h = JSNumber loc -> 0 <= loc ->
  exists t0 st0 stn tn,
    main h = (t0, Blocked st0) /\ frames n st0 = Some (stn, tn) /\
    let g := gl_run (gl_run gl_init t0) tn in
    buffer_store g !! b = Some (points st0) /\
    length (points st0) = 300%nat /\
    buffer_bytes g (JSObject b) = 1200 /\
    attribs g !! loc = Some (position_attrib b) /\
    draws g = replicate n (POINTS, 0, 100) /\
    (forall i, fetch_range (position_attrib b) i = (12 * i, 12 * i + 12)) /\
    draw_in_bounds g 0 100.
Proof.
  intros Hc Hg Hb Hl Hloc.
  pose proof (main_context h b loc Hc Hg Hb Hl Hloc) as Hctx. cbn zeta in Hctx.
  rewrite (main_ok h Hc Hg) in *. cbn [fst] in Hctx.
  set (t0 := _ ++ _) in *.
  set (st0 := initial_state h (fill_points (h_rand h))).
  destruct (frames_ok n st0 Hg) as [tn Hn].
  exists t0, st0. do 2 eexists. split; [reflexivity |]. split; [exact Hn |].
  cbn zeta.
  destruct Hctx as (G1 & G2 & _ & _ & G5 & _).
  destruct (frames_context n (gl_run gl_init t0) _ _ _ Hn)
    as (F1 & _ & _ & F4 & F5 & _).
  assert (Hstore : buffer_store (gl_run (gl_run gl_init t0) tn) !! b
                   = Some (fill_points (h_rand h)))
    by (rewrite F1, G1; apply lookup_singleton_eq).
  assert (Hbytes : buffer_bytes (gl_run (gl_run gl_init t0) tn) (JSObject b)
                   = 1200)
    by (unfold buffer_bytes; rewrite Hstore, fill_points_length; reflexivity).
  split; [exact Hstore |]. split; [apply fill_points_length |].
  split; [exact Hbytes |].
  split; [rewrite F4, G2; apply lookup_singleton_eq |].
  split; [rewrite F5, G5; reflexivity |].
  split; [intros i; unfold fetch_range; simpl; f_equal; lia |].
  intros k a Hk Hen i Hi. rewrite F4, G2 in Hk.
  apply lookup_singleton_Some in Hk. destruct Hk as [_ <-].
  unfold fetch_in_bounds. cbn [a_buffer position_attrib]. rewrite Hbytes.
  unfold fetch_range. simpl. lia.
Qed.

End BufferBounds.

(* ===================================================================== *)
(** * Properties of the server                                            *)
(* ===================================================================== *)

(** C9: the server registers the file handler for ["/"] first, then
    listens on the address [":8080"], whose port is 8080; when listening
    returns an error, the error is printed and [main] returns, which ends
    the process. *)
Theorem server_listens_on_8080 r :
  exists rest,
    fst (Server.main r) =
      [ Server.Handle "/" "wasm";
        Server.Println ["Server running at http://localhost:8080"%string];
        Server.ListenAndServe ":8080" ] ++ rest /\
    Server.port_of_addr ":8080" = Some 8080%N /\
    Server.index_of Server.is_handle_root (fst (Server.main r)) = Some 0%nat /\
    Server.index_of Server.is_listen (fst (Server.main r)) = Some 2%nat /\
    match r with
    | Server.ListenReturns (Some err) =>
        rest = [Server.Println ["Server error:"%string; err]] /\
        snd (Server.main r) = Server.Exited
    | Server.ListenReturns None =>
        rest = [] /\ snd (Server.main r) = Server.Exited
    | Server.ServesForever =>
        rest = [] /\ snd (Server.main r) = Server.Serving
    end.
Proof.
  destruct r as [| [err |]]; eexists; repeat split; reflexivity.
Qed.

(* ===================================================================== *)
(** * The model on concrete inputs                                        *)
(* ===================================================================== *)

(** [float32(0.01)] is [10737418 * 2^-30]. *)
Example angle_step_value : angle_step = S754_finite false 10737418 (-30).
Proof. vm_compute. reflexivity. Qed.

(** The ends of the range: 0 and the least subnormal map to -1, one half
    maps to 0, and the largest value below 1 maps to [1 - 2^-23]. *)
Example point_coord_samples :
  map point_coord sample_values =
  [ F32.minus_one; F32.minus_one; F32.minus_one;
    S754_finite true 13421773 (-24); S754_finite true 8388608 (-24);
    F32.zero; S754_finite false 8388608 (-24);
    S754_finite false 16777214 (-24) ].
Proof. vm_compute. reflexivity. Qed.

Lemma sample_rand_unit k : unit_interval (sample_rand k).
Proof.
  unfold sample_rand. pose proof (Nat.mod_upper_bound k 8 ltac:(lia)) as Hk.
  destruct (k mod 8)%nat as [| [| [| [| [| [| [| [| j]]]]]]]];
    try lia; vm_compute; auto.
Qed.

(** Vertex 100 would read past the end of a 300-value buffer: the count
    of the draw call is the largest that stays inside. *)
Example vertex_100_out_of_bounds :
  snd (fetch_range (position_attrib 3) 100) = 1212.
Proof. reflexivity. Qed.

Lemma frame_upload_clear_draw_witness :
  is_object (gl sample_state) = true /\
  exists st' t,
    @render taylor_math sample_state = Some (st', t) /\
    count is_uniform_upload t = 1%nat /\
    count is_clear t = 1%nat /\
    count is_draw t = 1%nat /\
    gl_calls t =
      [ uniformMatrix4fv (mvpLoc sample_state) false (@mvp taylor_math (angle st'));
        clear COLOR_BUFFER_BIT;
        drawArrays POINTS 0 100 ].
Proof.
  split; [reflexivity |].
  apply (@frame_upload_clear_draw taylor_math sample_state). reflexivity.
Defined.

Lemma view_matrix_deterministic_witness :
  is_object (gl sample_state) = true /\ is_object (gl other_state) = true /\
  angle sample_state = angle other_state /\
  exists st1' t1 st2' t2 m1 m2,
    @render taylor_math sample_state = Some (st1', t1) /\
    @render taylor_math other_state = Some (st2', t2) /\
    uploaded t1 = [m1] /\ uploaded t2 = [m2] /\
    m1 = m2 /\ forall row col, entry m1 row col = entry m2 row col.
Proof.
  split; [reflexivity |]. split; [reflexivity |]. split; [reflexivity |].
  apply (@view_matrix_deterministic taylor_math sample_state other_state);
    reflexivity.
Defined.

Lemma point_coords_in_range_witness :
  (forall k, (k < 300)%nat -> unit_interval (sample_rand k)) /\
  length (fill_points sample_rand) = 300%nat /\
  forall i p, fill_points sample_rand !! i = Some p ->
    F32.valid p = true /\
    F32.leb F32.minus_one p = true /\ F32.ltb p F32.one = true.
Proof.
  split; [intros k _; apply sample_rand_unit |].
  apply (point_coords_in_range sample_rand).
  intros k _. apply sample_rand_unit.
Defined.

Lemma point_set_size_witness :
  is_object (h_canvas sample_host) = true /\
  is_object (h_context sample_host) = true /\
  exists t st,
    main sample_host = (t, Blocked st) /\
    points st = fill_points (h_rand sample_host) /\
    length (points st) = 300%nat /\
    length (triples (points st)) = 100%nat /\
    flatten (triples (points st)) = points st /\
    count is_rand t = 300%nat /\
    In (bufferData ARRAY_BUFFER (points st) STATIC_DRAW) (gl_calls t).
Proof.
  split; [reflexivity |]. split; [reflexivity |].
  apply (point_set_size sample_host); reflexivity.
Defined.

Lemma context_failure_witness :
  (is_object (h_canvas no_webgl_host) = true /\
   IsNull (h_context no_webgl_host) = true /\
   main no_webgl_host =
     ([ getElementById "canvas"; getContext "webgl";
        alert "WebGL not supported" ], Returned) /\
   count is_alert (fst (main no_webgl_host)) = 1%nat) /\
  (IsNull (h_context sample_host) = false /\
   count is_alert (fst (main sample_host)) = 0%nat).
Proof.
  pose proof (proj1 context_failure_alerts_and_stops no_webgl_host
                eq_refl eq_refl) as H1.
  pose proof (proj2 context_failure_alerts_and_stops sample_host eq_refl) as H2.
  split.
  - split; [reflexivity |]. split; [reflexivity |].
    split; [exact (proj1 H1) | exact (proj1 (proj2 H1))].
  - split; [reflexivity | exact H2].
Defined.

Lemma frames_change_only_angle_witness :
  is_object (gl sample_state) = true /\
  exists st' t,
    @frames taylor_math 2 sample_state = Some (st', t) /\
    st' = set_angle (angle st') sample_state /\
    gl st' = gl sample_state /\ points st' = points sample_state /\
    buffer st' = buffer sample_state /\
    vertexShader st' = vertexShader sample_state /\
    fragmentShader st' = fragmentShader sample_state /\
    program st' = program sample_state /\
    positionLoc st' = positionLoc sample_state /\
    mvpLoc st' = mvpLoc sample_state /\
    count is_rand t = 0%nat /\
    forall g,
      buffer_store (gl_run g t) = buffer_store g /\
      array_buffer_binding (gl_run g t) = array_buffer_binding g /\
      current_program (gl_run g t) = current_program g /\
      attribs (gl_run g t) = attribs g.
Proof.
  split; [reflexivity |].
  apply (@frames_change_only_angle taylor_math 2 sample_state). reflexivity.
Defined.

Lemma draws_read_inside_buffer_witness :
  is_object (h_canvas sample_host) = true /\
  is_object (h_context sample_host) = true /\
  h_buffer sample_host = JSObject 3 /\
  h_positionLoc sample_host = JSNumber 0 /\ 0 <= 0 /\
  exists t0 st0 stn tn,
    main sample_host = (t0, Blocked st0) /\
    @frames taylor_math 2 st0 = Some (stn, tn) /\
    let g := gl_run (gl_run gl_init t0) tn in
    buffer_store g !! 3%nat = Some (points st0) /\
    length (points st0) = 300%nat /\
    buffer_bytes g (JSObject 3) = 1200 /\
    attribs g !! 0 = Some (position_attrib 3) /\
    draws g = replicate 2 (POINTS, 0, 100) /\
    (forall i, fetch_range (position_attrib 3) i = (12 * i, 12 * i + 12)) /\
    draw_in_bounds g 0 100.
Proof.
  split; [reflexivity |]. split; [reflexivity |]. split; [reflexivity |].
  split; [reflexivity |]. split; [apply Z.le_refl |].
  apply (@draws_read_inside_buffer taylor_math sample_host 3%nat 0 2%nat);
    first [reflexivity | apply Z.le_refl].
Defined.

(* ===================================================================== *)
(** * More about binary32 rounding: lower bounds                          *)
(* ===================================================================== *)

Section RoundingBelow.
Import F32.

Lemma fexp32_succ y : fexp32 (y + 1) <= fexp32 y + 1.
Proof. rewrite !fexp32_eq. lia. Qed.

(** Rounding never falls below a representable number that the exact
    value reaches. *)
Lemma binary_round_aux_ge s mx ex ma ea :
  0 < mx -> -149 <= ex -> ex <= fexp32 (Zdigits2 mx + ex) ->
  bounded prec emax ma ea = true ->
  Zpos ma * 2 ^ (ea + 149) <= mx * 2 ^ (ex + 149) ->
  binary_round_aux prec emax s mx ex loc_Exact = S754_infinity s \/
  exists m' e',
    binary_round_aux prec emax s mx ex loc_Exact = S754_finite s m' e' /\
    Zpos ma * 2 ^ (ea + 149) <= Zpos m' * 2 ^ (e' + 149).
Proof.
  intros Hmx Hex Hle Hbd Hval.
  destruct (bounded_inv _ _ Hbd) as [Hca _].
  assert (Hea : -149 <= ea) by (rewrite fexp32_eq in Hca; lia).
  destruct (binary_round_aux_shape s mx ex) as (mr & Hmr & _ & Heq); [lia |].
  cbn zeta in Heq.
  set (fe := fexp32 (Zdigits2 mx + ex)) in *.
  replace (Z.max 0 (fe - ex)) with (fe - ex) in * by lia.
  replace (ex + (fe - ex)) with fe in Heq by lia.
  set (n1 := fe - ex) in *. set (q := mx / 2 ^ n1) in *.
  assert (H2 : 0 < 2 ^ n1) by (apply Z.pow_pos_nonneg; lia).
  assert (Hfe149 : -149 <= fe) by (unfold fe; rewrite fexp32_eq; lia).
  pose proof (Zdigits2_bounds mx Hmx) as [Hmlo Hmhi].
  pose proof (Zdigits2_bounds (Zpos ma) ltac:(lia)) as [Halo Hahi].
  pose proof (Zdigits2_pos mx Hmx) as Hdx.
  pose proof (Zdigits2_pos (Zpos ma) ltac:(lia)) as Hda.
  assert (Hsc : 2 ^ (fe + 149) = 2 ^ n1 * 2 ^ (ex + 149)).
  { unfold n1. rewrite <- Z.pow_add_r by lia. f_equal. lia. }
  assert (Hpe : 0 < 2 ^ (ex + 149)) by (apply Z.pow_pos_nonneg; lia).
  assert (Hpa : 0 < 2 ^ (ea + 149)) by (apply Z.pow_pos_nonneg; lia).
  assert (Hpf : 0 < 2 ^ (fe + 149)) by (apply Z.pow_pos_nonneg; lia).
  (* Step A: the representable number is at most the truncation *)
  assert (HA : Zpos ma * 2 ^ (ea + 149) <= q * 2 ^ (fe + 149)).
  { destruct (Z.le_gt_cases fe ea) as [Hc | Hc].
    - assert (Hs : 2 ^ (ea + 149) = 2 ^ (ea - fe) * 2 ^ (fe + 149)).
      { rewrite <- Z.pow_add_r by lia. f_equal. lia. }
      assert (Hq : Zpos ma * 2 ^ (ea - fe) <= q).
      { apply Z.div_le_lower_bound; [lia |].
        rewrite Hs, Hsc in Hval.
        assert (0 < 2 ^ (ea - fe)) by (apply Z.pow_pos_nonneg; lia).
        nia. }
      rewrite Hs. nia.
    - assert (Hfe : fe = Zdigits2 mx + ex - 24)
        by (unfold fe in *; rewrite fexp32_eq in *; lia).
      assert (Hdd : Zdigits2 (Zpos ma) + ea <= Zdigits2 mx + ex - 1)
        by (rewrite fexp32_eq in Hca; lia).
      assert (Hq : 2 ^ (Zdigits2 mx - 1 - n1) <= q).
      { apply Z.div_le_lower_bound; [lia |].
        rewrite <- Z.pow_add_r by lia.
        replace (n1 + (Zdigits2 mx - 1 - n1)) with (Zdigits2 mx - 1) by lia.
        exact Hmlo. }
      assert (Hp1 : 2 ^ (Zdigits2 mx - 1 - n1) * 2 ^ (fe + 149)
                    = 2 ^ (Zdigits2 mx - 1 + ex + 149)).
      { rewrite <- Z.pow_add_r by lia. f_equal. lia. }
      assert (Hp2 : 2 ^ (Zdigits2 (Zpos ma)) * 2 ^ (ea + 149)
                    = 2 ^ (Zdigits2 (Zpos ma) + ea + 149)).
      { rewrite <- Z.pow_add_r by lia. f_equal. lia. }
      assert (Hp3 : 2 ^ (Zdigits2 (Zpos ma) + ea + 149)
                    <= 2 ^ (Zdigits2 mx - 1 + ex + 149))
        by (apply Z.pow_le_mono_r; lia).
      nia. }
  assert (Hq1 : 1 <= q) by nia.
  assert (Hmx1 : 2 ^ n1 <= mx).
  { pose proof (Z.div_mod mx (2 ^ n1) ltac:(lia)) as Hdm. fold q in Hdm.
    pose proof (Z.mod_pos_bound mx (2 ^ n1) H2). nia. }
  pose proof (Zdigits2_div_pow mx n1 ltac:(lia) Hmx1) as Hdq. fold q in Hdq.
  assert (Hfq : fexp32 (Zdigits2 q + fe) = fe).
  { rewrite Hdq. replace (Zdigits2 mx - n1 + fe) with (Zdigits2 mx + ex)
      by (unfold n1; lia). reflexivity. }
  set (n2 := Z.max 0 (fexp32 (Zdigits2 mr + fe) - fe)) in *.
  assert (H22 : 0 < 2 ^ n2) by (apply Z.pow_pos_nonneg; unfold n2; lia).
  (* Step B: the second shift loses nothing *)
  assert (HB : q * 2 ^ (fe + 149) <= (mr / 2 ^ n2) * 2 ^ (fe + n2 + 149)).
  { destruct (Z.eq_dec n2 0) as [E2 | N2].
    - rewrite E2, Z.div_1_r, Z.add_0_r. nia.
    - assert (Hn2 : 0 < n2) by (unfold n2 in *; lia).
      assert (Hmrq : mr = q + 1).
      { destruct (Z.eq_dec mr q) as [E | N]; [| lia].
        exfalso. unfold n2 in Hn2. rewrite E, Hfq in Hn2. lia. }
      pose proof (Zdigits2_bounds q ltac:(lia)) as [Hqlo Hqhi].
      pose proof (Zdigits2_pos q ltac:(lia)) as Hdq0.
      assert (Hdr : Zdigits2 q < Zdigits2 mr).
      { destruct (Z.lt_ge_cases (Zdigits2 q) (Zdigits2 mr)); trivial.
        pose proof (Zdigits2_mono q mr ltac:(lia) ltac:(lia)).
        exfalso. unfold n2 in Hn2.
        replace (Zdigits2 mr) with (Zdigits2 q) in Hn2 by lia.
        rewrite Hfq in Hn2. lia. }
      assert (Hpow : mr = 2 ^ Zdigits2 q).
      { pose proof (Zdigits2_ge_pow mr (Zdigits2 q)) as Hg.
        destruct (Z.eq_dec mr (2 ^ Zdigits2 q)); trivial.
        assert (mr < 2 ^ Zdigits2 q) by lia.
        pose proof (Zdigits2_lt_pow mr (Zdigits2 q) ltac:(lia) ltac:(lia) H).
        lia. }
      assert (Hdr' : Zdigits2 mr = Zdigits2 q + 1).
      { rewrite Hpow. rewrite Zdigits2_log2 by (apply Z.pow_pos_nonneg; lia).
        rewrite Z.log2_pow2 by lia. reflexivity. }
      assert (Hn21 : n2 = 1).
      { unfold n2 in *. rewrite Hdr' in *.
        replace (Zdigits2 q + 1 + fe) with ((Zdigits2 q + fe) + 1) in * by lia.
        pose proof (fexp32_succ (Zdigits2 q + fe)) as Hs. rewrite Hfq in Hs.
        revert Hs N2. generalize (fexp32 (Zdigits2 q + fe + 1)).
        clear. clearbody fe. intros X Hs N2. lia. }
      rewrite Hn21, Hpow.
      assert (Hp : 2 ^ Zdigits2 q = 2 ^ (Zdigits2 q - 1) * 2 ^ 1).
      { rewrite <- Z.pow_add_r by lia. f_equal. lia. }
      assert (Hd2 : 2 ^ Zdigits2 q / 2 ^ 1 = 2 ^ (Zdigits2 q - 1)).
      { rewrite Hp at 1. apply Z.div_mul. discriminate. }
      rewrite Hd2.
      assert (Hp' : 2 ^ (fe + 1 + 149) = 2 ^ 1 * 2 ^ (fe + 149)).
      { rewrite <- Z.pow_add_r by lia. f_equal. lia. }
      rewrite Hp'. change (2 ^ 1) with 2 in *. nia. }
  assert (Hm2 : 0 < mr / 2 ^ n2).
  { assert (0 < 2 ^ (fe + n2 + 149)) by (apply Z.pow_pos_nonneg; unfold n2; lia).
    nia. }
  destruct (mr / 2 ^ n2) as [| m' | m'] eqn:Em; try lia.
  destruct (fe + n2 <=? emax - prec).
  - right. exists m', (fe + n2). split; [exact Heq | lia].
  - left. exact Heq.
Qed.

Lemma binary_round_ge s M e ma ea :
  -149 <= e ->
  bounded prec emax ma ea = true ->
  Zpos ma * 2 ^ (ea + 149) <= Zpos M * 2 ^ (e + 149) ->
  binary_round prec emax s M e = S754_infinity s \/
  exists m' e',
    binary_round prec emax s M e = S754_finite s m' e' /\
    Zpos ma * 2 ^ (ea + 149) <= Zpos m' * 2 ^ (e' + 149).
Proof.
  intros He Hbd Hval. unfold binary_round.
  change (Zpos (digits2_pos M)) with (Zdigits2 (Zpos M)).
  fold (fexp32 (Zdigits2 (Zpos M) + e)).
  set (fe := fexp32 (Zdigits2 (Zpos M) + e)).
  assert (Hfe : -149 <= fe) by (unfold fe; rewrite fexp32_eq; lia).
  destruct (shl_align_spec M e fe) as (mz & -> & Hmz).
  set (ez := Z.min e fe) in *.
  assert (Hd : Zdigits2 (Zpos mz) + ez = Zdigits2 (Zpos M) + e).
  { rewrite Hmz, Zdigits2_mul_pow by lia. lia. }
  apply binary_round_aux_ge; try lia; trivial.
  - rewrite Hd. fold fe. lia.
  - rewrite Hmz. rewrite <- Z.mul_assoc, <- Z.pow_add_r by lia.
    replace (e - ez + (ez + 149)) with (e + 149) by lia. exact Hval.
Qed.

End RoundingBelow.

Section AngleRange.
Import F32.

Lemma bounded_lt_pow24 m e : bounded prec emax m e = true -> Zpos m < 2 ^ 24.
Proof.
  intros Hbd. destruct (bounded_inv _ _ Hbd) as [Hc _]. rewrite fexp32_eq in Hc.
  pose proof (Zdigits2_bounds (Zpos m) ltac:(lia)) as [_ Hhi].
  eapply Z.lt_le_trans; [exact Hhi |]. apply Z.pow_le_mono_r; lia.
Qed.

(** On canonical positive numbers, [<=] of Go is [<=] of the values. *)
Lemma leb_pos_pos m1 e1 m2 e2 :
  bounded prec emax m1 e1 = true -> bounded prec emax m2 e2 = true ->
  Zpos m1 * 2 ^ (e1 + 149) <= Zpos m2 * 2 ^ (e2 + 149) ->
  leb (S754_finite false m1 e1) (S754_finite false m2 e2) = true.
Proof.
  intros B1 B2 Hv.
  destruct (bounded_inv _ _ B1) as [C1 _]. destruct (bounded_inv _ _ B2) as [C2 _].
  rewrite fexp32_eq in C1, C2.
  pose proof (bounded_lt_pow24 _ _ B2) as H2.
  pose proof (Zdigits2_bounds (Zpos m1) ltac:(lia)) as [Hlo _].
  unfold leb, SFleb, SFcompare.
  destruct (Z.compare_spec e1 e2) as [E | L | G]; trivial.
  - subst e2. rewrite Pos.compare_cont_spec. simpl.
    assert (0 < 2 ^ (e1 + 149)) by (apply Z.pow_pos_nonneg; lia).
    destruct (Pos.compare_spec m1 m2); trivial. nia.
  - exfalso.
    assert (Hd : Zdigits2 (Zpos m1) = 24) by lia. rewrite Hd in Hlo.
    change (2 ^ (24 - 1)) with (2 ^ 23) in Hlo.
    assert (Hs : 2 ^ (e1 + 149) = 2 ^ (e1 - e2) * 2 ^ (e2 + 149)).
    { rewrite <- Z.pow_add_r by lia. f_equal. lia. }
    assert (0 < 2 ^ (e2 + 149)) by (apply Z.pow_pos_nonneg; lia).
    assert (2 ^ 1 <= 2 ^ (e1 - e2)) by (apply Z.pow_le_mono_r; lia).
    change (2 ^ 1) with 2 in *. change (2 ^ 23) with 8388608 in *.
    change (2 ^ 24) with 16777216 in *. rewrite Hs in Hv. nia.
Qed.

Lemma angle_step_eq : angle_step = S754_finite false 10737418 (-30).
Proof. vm_compute. reflexivity. Qed.

(** One more step from an angle below [262144]: the sum is rounded to a
    canonical number between the old angle and [262144]. *)
Lemma add_step_finite m e :
  bounded prec emax m e = true -> e <= -6 ->
  exists m' e',
    add (S754_finite false m e) angle_step = S754_finite false m' e' /\
    bounded prec emax m' e' = true /\
    Zpos m * 2 ^ (e + 149) <= Zpos m' * 2 ^ (e' + 149) /\
    e' <= 18 /\ Zpos m' <= 2 ^ (18 - e').
Proof.
  intros Hbd He. rewrite angle_step_eq.
  destruct (bounded_inv _ _ Hbd) as [Hc _]. rewrite fexp32_eq in Hc.
  pose proof (bounded_lt_pow24 _ _ Hbd) as Hm24.
  change (add (S754_finite false m e) (S754_finite false 10737418 (-30)))
    with (binary_normalize prec emax
            (Zpos (fst (shl_align m e (Z.min e (-30))))
             + Zpos (fst (shl_align 10737418 (-30) (Z.min e (-30)))))
            (Z.min e (-30)) false).
  set (ez := Z.min e (-30)).
  destruct (shl_align_spec m e ez) as (m1 & E1 & H1).
  destruct (shl_align_spec 10737418 (-30) ez) as (m2 & E2 & H2).
  replace (Z.min e ez) with ez in * by lia.
  replace (Z.min (-30) ez) with ez in * by lia.
  rewrite E1, E2. cbn [fst].
  change (Zpos m1 + Zpos m2) with (Zpos (m1 + m2)). unfold binary_normalize.
  assert (Hez : -149 <= ez) by lia.
  assert (Hsum : Zpos (m1 + m2) <= 2 ^ (18 - ez)).
  { rewrite Pos2Z.inj_add, H1, H2.
    assert (Ha : 2 ^ (18 - ez) = 2 ^ 24 * 2 ^ (-6 - ez)).
    { rewrite <- Z.pow_add_r by lia. f_equal. lia. }
    assert (Hb : 2 ^ (-6 - ez) = 2 ^ 24 * 2 ^ (-30 - ez)).
    { rewrite <- Z.pow_add_r by lia. f_equal. lia. }
    assert (Hc' : 2 ^ (e - ez) <= 2 ^ (-6 - ez)) by (apply Z.pow_le_mono_r; lia).
    assert (0 < 2 ^ (-30 - ez)) by (apply Z.pow_pos_nonneg; lia).
    assert (0 < 2 ^ (e - ez)) by (apply Z.pow_pos_nonneg; lia).
    change (2 ^ 24) with 16777216 in *. nia. }
  assert (Hlow : Zpos m * 2 ^ (e + 149) <= Zpos (m1 + m2) * 2 ^ (ez + 149)).
  { rewrite Pos2Z.inj_add, H1.
    assert (2 ^ (e + 149) = 2 ^ (e - ez) * 2 ^ (ez + 149)).
    { rewrite <- Z.pow_add_r by lia. f_equal. lia. }
    assert (0 < 2 ^ (ez + 149)) by (apply Z.pow_pos_nonneg; lia).
    nia. }
  destruct (binary_round_le_pow2 false (m1 + m2) ez 18 ltac:(lia) Hsum)
    as [Hz | (m' & e' & Hr & Hbd' & He' & Hm')];
  destruct (binary_round_ge false (m1 + m2) ez m e Hez Hbd Hlow)
    as [Hi | (m'' & e'' & Hr' & Hge)]; try congruence.
  exists m', e'. rewrite Hr in Hr'. injection Hr' as <- <-.
  split; [exact Hr |]. auto.
Qed.

(** The step of the frame loop keeps the angle in range, and never makes
    it smaller. *)
Lemma add_step_in_range a :
  angle_in_range a = true ->
  angle_in_range (add a angle_step) = true /\
  leb a (add a angle_step) = true.
Proof.
  unfold angle_in_range. intros H.
  apply andb_prop in H. destruct H as [H Hhi].
  apply andb_prop in H. destruct H as [Hv Hlo].
  destruct a as [s | s | | s m e].
  - destruct s; vm_compute; auto.
  - destruct s; discriminate.
  - discriminate.
  - destruct s; [discriminate |].
    change (valid (S754_finite false m e)) with (bounded prec emax m e) in Hv.
    change (of_Z 262144) with (S754_finite false 8388608 (-5)) in *.
    unfold leb, SFleb, SFcompare in Hhi.
    destruct (Z.compare_spec e (-5)) as [E | L | G]; try discriminate.
    + (* the angle is 262144 *)
      subst e. rewrite Pos.compare_cont_spec in Hhi. simpl in Hhi.
      destruct (bounded_inv _ _ Hv) as [Hc _]. rewrite fexp32_eq in Hc.
      pose proof (Zdigits2_bounds (Zpos m) ltac:(lia)) as [Hmlo _].
      assert (Hd : Zdigits2 (Zpos m) = 24) by lia. rewrite Hd in Hmlo.
      change (2 ^ (24 - 1)) with 8388608 in Hmlo.
      assert (m = 8388608%positive).
      { destruct (Pos.compare_spec m 8388608) as [E | L | G].
        - exact E.
        - apply Pos2Z.pos_lt_pos in L. clear - L Hmlo. lia.
        - discriminate Hhi. }
      subst m. vm_compute. auto.
    + destruct (add_step_finite m e Hv ltac:(lia))
        as (m' & e' & -> & Hbd' & Hge & He' & Hm').
      split.
      * apply andb_true_intro. split; [apply andb_true_intro; split |].
        -- exact Hbd'.
        -- reflexivity.
        -- apply leb_pos_pos; trivial.
           assert (-149 <= e')
             by (destruct (bounded_inv _ _ Hbd') as [Hc _];
                 rewrite fexp32_eq in Hc; lia).
           assert (Hs : 2 ^ (18 - e') * 2 ^ (e' + 149) = 2 ^ 167).
           { rewrite <- Z.pow_add_r by lia. f_equal. lia. }
           assert (0 < 2 ^ (e' + 149)) by (apply Z.pow_pos_nonneg; lia).
           change (Zpos 8388608 * 2 ^ (-5 + 149)) with (2 ^ 167).
           rewrite <- Hs. nia.
      * apply leb_pos_pos; trivial.
Qed.

End AngleRange.

Section PointValue.
Import F32.

(** The value of [x - 1] for a canonical [x] in [[0, 2)]: at least -1, at
    most [1 - 2^-23]. *)
Lemma sub_one_value m e :
  bounded prec emax m e = true -> e <= -23 ->
  - 2 ^ 149 <= scaled (sub (S754_finite false m e) one) <= 2 ^ 149 - 2 ^ 126.
Proof.
  intros Hbd He. destruct (bounded_inv _ _ Hbd) as [Hc _].
  rewrite fexp32_eq in Hc.
  pose proof (Zdigits2_bounds (Zpos m) ltac:(lia)) as [Hlo Hhi].
  pose proof (bounded_lt_pow24 _ _ Hbd) as Hm24.
  change (sub (S754_finite false m e) one)
    with (binary_normalize prec emax
            (Zpos (fst (shl_align m e (Z.min e (-23))))
             - Zpos (fst (shl_align 8388608 (-23) (Z.min e (-23)))))
            (Z.min e (-23)) false).
  replace (Z.min e (-23)) with e by lia.
  destruct (shl_align_spec m e e) as (m1 & E1 & H1).
  destruct (shl_align_spec 8388608 (-23) e) as (m2 & E2 & H2).
  replace (Z.min e e) with e in * by lia.
  replace (Z.min (-23) e) with e in * by lia.
  rewrite E1, E2. cbn [fst]. rewrite H1, H2, Z.sub_diag, Z.mul_1_r.
  change (Zpos 8388608) with (2 ^ 23).
  rewrite <- Z.pow_add_r by lia. replace (23 + (-23 - e)) with (- e) by lia.
  destruct (Z.eq_dec e (-23)) as [E | N].
  - subst e. change (2 ^ (- (-23))) with 8388608.
    assert (Hd : Zdigits2 (Zpos m) = 24) by lia. rewrite Hd in Hlo.
    change (2 ^ (24 - 1)) with 8388608 in Hlo.
    change (2 ^ 24) with 16777216 in Hm24.
    destruct (Zpos m - 8388608) as [| p | p] eqn:Ep; try lia.
    + simpl. lia.
    + unfold binary_normalize.
      pose proof (binary_round_exact false p (-23)) as HE. cbn zeta in HE.
      assert (Hdp : Zdigits2 (Zpos p) <= 23)
        by (apply Zdigits2_lt_pow; try lia; change (2 ^ 23) with 8388608; lia).
      pose proof (Zdigits2_pos (Zpos p) ltac:(lia)) as Hdp0.
      set (fe := fexp32 (Zdigits2 (Zpos p) + -23)) in *.
      assert (Hfe : -149 <= fe <= -24) by (unfold fe; rewrite fexp32_eq; lia).
      destruct HE as (m' & Hm' & _ & Heq); try lia.
      rewrite Heq. cbn [scaled cond_Zopp]. rewrite Hm'.
      rewrite <- Z.mul_assoc, <- Z.pow_add_r by lia.
      replace (-23 - fe + (fe + 149)) with 126 by lia.
      assert (0 < 2 ^ 126) by (apply Z.pow_pos_nonneg; lia).
      assert (2 ^ 149 = 8388608 * 2 ^ 126) by reflexivity.
      nia.
  - assert (He' : e <= -24) by lia.
    assert (H2e : 2 ^ 24 <= 2 ^ (- e)) by (apply Z.pow_le_mono_r; lia).
    destruct (Zpos m - 2 ^ (- e)) as [| p | p] eqn:Ep; try lia.
    unfold binary_normalize.
    destruct (binary_round_le_pow2 true p e 0)
      as [Hz | (m' & e' & Heq & Hbd' & He0 & Hm')]; try lia.
    + replace (0 - e) with (- e) by lia. lia.
    + rewrite Hz. simpl. lia.
    + rewrite Heq. cbn [scaled cond_Zopp].
      assert (-149 <= e')
        by (destruct (bounded_inv _ _ Hbd') as [Hc' _];
            rewrite fexp32_eq in Hc'; lia).
      assert (Hs : 2 ^ (0 - e') * 2 ^ (e' + 149) = 2 ^ 149).
      { rewrite <- Z.pow_add_r by lia. f_equal. lia. }
      assert (0 < 2 ^ (e' + 149)) by (apply Z.pow_pos_nonneg; lia).
      assert (0 < 2 ^ 126) by (apply Z.pow_pos_nonneg; lia).
      assert (2 ^ 149 = 8388608 * 2 ^ 126) by reflexivity.
      nia.
Qed.

Lemma point_coord_value v :
  unit_interval v ->
  - 2 ^ 149 <= scaled (point_coord v) <= 2 ^ 149 - 2 ^ 126.
Proof.
  intros (Hv & H0 & H1). unfold point_coord.
  destruct v as [s | s | | s m e].
  - destruct s; vm_compute; split; discriminate.
  - destruct s; discriminate.
  - discriminate.
  - destruct s; [discriminate |].
    assert (He : e <= -24).
    { unfold ltb, SFltb, one, SFcompare in H1.
      destruct (Z.compare_spec e (-23)) as [E | L | G]; try discriminate; try lia.
      exfalso. subst e.
      rewrite Pos.compare_cont_spec in H1. simpl in H1.
      destruct (Pos.compare_spec m 8388608) as [E | L | G]; try discriminate.
      destruct (bounded_inv _ _ Hv) as [Hc _]. rewrite fexp32_eq in Hc.
      assert (Hd : Zdigits2 (Zpos m) <= 23).
      { apply Zdigits2_lt_pow; [reflexivity | discriminate |].
        change (2 ^ 23) with 8388608. apply Pos2Z.pos_lt_pos. exact L. }
      clear - Hc Hd. lia. }
    destruct (mul_two_exact m e Hv He) as (m' & e' & -> & Hbd' & He').
    apply sub_one_value; trivial.
Qed.

End PointValue.

(* ===================================================================== *)
(** * Shaders and program                                                 *)
(* ===================================================================== *)

Lemma pipeline_run_app p t1 t2 :
  pipeline_run p (t1 ++ t2) = pipeline_run (pipeline_run p t1) t2.
Proof. unfold pipeline_run. apply foldl_app. Qed.

Lemma pipeline_run_replicate_rand p n :
  pipeline_run p (replicate n rand_Float32) = p.
Proof. induction n as [| n IH]; simpl; [reflexivity | exact IH]. Qed.

Section Pipeline.
Context `{MathLib}.

Lemma frames_pipeline n : forall p st st' t,
  frames n st = Some (st', t) -> pipeline_run p t = p.
Proof.
  induction n as [| n IH]; intros p st st' t.
  - intros [= <- <-]. reflexivity.
  - cbn [frames]. destruct (render st) as [[st1 t1] |] eqn:E1; [| discriminate].
    destruct (frames n st1) as [[st2 t2] |] eqn:E2; [| discriminate].
    intros [= <- <-]. rewrite pipeline_run_app.
    unfold render in E1. destruct (is_object (gl st)); [| discriminate].
    injection E1 as <- <-. simpl. eapply IH, E2.
Qed.

(** X13: the program in use while frames are drawn was linked from the two
    shaders of the file, each compiled from its own source, and the two
    names looked up in it were looked up after linking and are declared
    in the vertex shader. *)
Theorem program_built_from_both_shaders h vs fs pr n :
  is_object (h_canvas h) = true -> is_object (h_context h) = true ->
  h_vertexShader h = JSObject vs -> h_fragmentShader h = JSObject fs ->
  h_program h = JSObject pr -> vs <> fs ->
  exists t0 st0 stn tn,
    main h = (t0, Blocked st0) /\ frames n st0 = Some (stn, tn) /\
    let p := pipeline_run pipeline_init (t0 ++ tn) in
    pr_in_use p = Some pr /\
    pr_linked p !! pr =
      Some [ (vs, Some vertexShaderSource); (fs, Some fragmentShaderSource) ] /\
    pr_lookups p = [ ("position"%string, true);
                     ("modelViewProjection"%string, true) ] /\
    occurs "attribute vec3 position;" vertexShaderSource = true /\
    occurs "uniform mat4 modelViewProjection;" vertexShaderSource = true.
Proof.
  intros Hc Hg Hv Hf Hp Hne. rewrite (main_ok h Hc Hg).
  set (st0 := initial_state h (fill_points (h_rand h))).
  destruct (frames_ok n st0 Hg) as [tn Hn].
  do 4 eexists. split; [reflexivity |]. split; [exact Hn |].
  cbn zeta. rewrite pipeline_run_app, (frames_pipeline n _ _ _ _ Hn).
  rewrite !pipeline_run_app, pipeline_run_replicate_rand.
  unfold setup_calls, clear_calls. rewrite Hv, Hf, Hp.
  cbn [pipeline_run foldl map pipeline_exec pipeline_init sh_source
       sh_compiled pr_attached pr_linked pr_in_use pr_lookups].
  rewrite lookup_insert_eq.
  cbn [sh_source sh_compiled pr_attached pr_linked pr_in_use pr_lookups].
  rewrite lookup_insert_eq.
  cbn [sh_source sh_compiled pr_attached pr_linked pr_in_use pr_lookups].
  rewrite lookup_empty, lookup_insert_eq.
  cbn [default from_option app].
  unfold is_linked.
  cbn [sh_source sh_compiled pr_attached pr_linked pr_in_use pr_lookups].
  rewrite !lookup_insert_eq.
  cbn [sh_source sh_compiled pr_attached pr_linked pr_in_use pr_lookups
       default from_option app map].
  rewrite !lookup_insert_eq. cbn [id app map].
  rewrite lookup_insert_eq, lookup_insert_ne by congruence.
  rewrite lookup_insert_eq.
  repeat split; reflexivity.
Qed.

End Pipeline.

(* ===================================================================== *)
(** * Further properties of the renderer                                  *)
(* ===================================================================== *)

(** X1: coordinate [i] of the point set is computed from the [i]-th value
    of the random source and from nothing else; there is no coordinate
    at index 300 or beyond. *)
Theorem points_follow_random_draws rnd i :
  fill_points rnd !! i =
  if (i <? 300)%nat then Some (point_coord (rnd i)) else None.
Proof.
  rewrite fill_points_eq, list_lookup_fmap.
  destruct (Nat.ltb_spec i 300) as [Hi | Hi].
  - rewrite lookup_seq_lt by exact Hi. reflexivity.
  - rewrite lookup_seq_ge by exact Hi. reflexivity.
Qed.

(** X2: the value of every generated coordinate lies between -1 and
    [1 - 2^-23]; both ends are reached, by the draws 0 and [1 - 2^-24]. *)
Theorem point_coords_value_range rnd :
  (forall k, (k < 300)%nat -> unit_interval (rnd k)) ->
  (forall i p, fill_points rnd !! i = Some p ->
     - 2 ^ 149 <= F32.scaled p <= 2 ^ 149 - 2 ^ 126) /\
  F32.scaled (point_coord F32.zero) = - 2 ^ 149 /\
  F32.scaled (point_coord (S754_finite false 16777215 (-24)))
    = 2 ^ 149 - 2 ^ 126.
Proof.
  intros Hrnd. split; [| split; reflexivity].
  intros i p Hp. apply fill_points_lookup in Hp. destruct Hp as [Hi ->].
  apply point_coord_value, Hrnd, Hi.
Qed.

Section MoreFrames.
Context `{MathLib}.

Lemma frames_angle_in_range n : forall a,
  angle_in_range a = true ->
  angle_in_range (Nat.iter n (fun x => F32.add x angle_step) a) = true.
Proof.
  induction n as [| n IH]; intros a Ha; [exact Ha |].
  cbn [Nat.iter]. apply add_step_in_range, IH, Ha.
Qed.

(** X3: an angle between 0 and 262144 stays between 0 and 262144 for any
    number of frames: it never overflows, never becomes negative and
    never becomes a NaN. *)
Theorem angle_stays_in_range n st :
  is_object (gl st) = true -> angle_in_range (angle st) = true ->
  exists st' t,
    frames n st = Some (st', t) /\ angle_in_range (angle st') = true.
Proof.
  intros Hgl Ha. destruct (frames_ok n st Hgl) as [t Ht].
  do 2 eexists. split; [exact Ht |]. cbn [angle set_angle].
  apply frames_angle_in_range, Ha.
Qed.

(** X4: a frame never makes the angle smaller. *)
Theorem angle_never_decreases st :
  is_object (gl st) = true -> angle_in_range (angle st) = true ->
  exists st' t,
    render st = Some (st', t) /\ F32.leb (angle st) (angle st') = true.
Proof.
  intros Hgl Ha. rewrite (render_ok st Hgl). do 2 eexists.
  split; [reflexivity |]. cbn [angle set_angle].
  apply add_step_in_range, Ha.
Qed.

(** [n + m] frames are [n] frames followed by [m] frames: the states
    chain and the traces concatenate. *)
Theorem frames_add n m : forall st,
  frames (n + m) st =
  match frames n st with
  | Some (st1, t1) =>
      match frames m st1 with
      | Some (st2, t2) => Some (st2, t1 ++ t2)
      | None => None
      end
  | None => None
  end.
Proof.
  induction n as [| n IH]; intros st.
  - cbn [Nat.add frames]. destruct (frames m st) as [[st2 t2] |]; reflexivity.
  - cbn [Nat.add frames]. destruct (render st) as [[st1 t1] |]; [| reflexivity].
    rewrite IH. destruct (frames n st1) as [[st2 t2] |]; [| reflexivity].
    destruct (frames m st2) as [[st3 t3] |]; [| reflexivity].
    rewrite app_assoc. reflexivity.
Qed.

Lemma frames_counts n : forall st st' t,
  frames n st = Some (st', t) ->
  length t = (4 * n)%nat /\
  count is_uniform_upload t = n /\ count is_clear t = n /\
  count is_draw t = n /\ count is_requestAnimationFrame t = n /\
  count is_alert t = 0%nat /\
  (t = [] \/ last t = Some requestAnimationFrame).
Proof.
  induction n as [| n IH]; intros st st' t.
  - intros [= <- <-]. simpl. auto 10.
  - cbn [frames]. destruct (render st) as [[st1 t1] |] eqn:E1; [| discriminate].
    destruct (frames n st1) as [[st2 t2] |] eqn:E2; [| discriminate].
    intros [= <- <-].
    destruct (IH _ _ _ E2) as (L & C1 & C2 & C3 & C4 & C5 & C6).
    unfold render in E1. destruct (is_object (gl st)); [| discriminate].
    injection E1 as <- <-.
    rewrite length_app, !count_app, L, C1, C2, C3, C4, C5. simpl.
    repeat (split; [lia |]). right.
    destruct C6 as [-> | C6]; [reflexivity |].
    destruct t2 as [| e t2]; [discriminate | exact C6].
Qed.

(** X7: after start-up and [n] frames the callback has been registered
    [n + 1] times for [n] runs of it, and registering it is the last
    thing done: exactly one run is pending, the loop neither stops nor
    doubles. *)
Theorem one_callback_pending h n :
  is_object (h_canvas h) = true -> is_object (h_context h) = true ->
  exists t0 st0 stn tn,
    main h = (t0, Blocked st0) /\ frames n st0 = Some (stn, tn) /\
    count is_requestAnimationFrame (t0 ++ tn) = S n /\
    count is_uniform_upload (t0 ++ tn) = n /\
    count is_draw (t0 ++ tn) = n /\
    last (t0 ++ tn) = Some requestAnimationFrame.
Proof.
  intros Hc Hg. rewrite (main_ok h Hc Hg).
  set (st0 := initial_state h (fill_points (h_rand h))).
  destruct (frames_ok n st0 Hg) as [tn Hn].
  do 4 eexists. split; [reflexivity |]. split; [exact Hn |].
  destruct (frames_counts n _ _ _ Hn) as (_ & C1 & _ & C3 & C4 & _ & C6).
  rewrite !count_app, C1, C3, C4.
  rewrite !count_replicate, !count_map_GL by reflexivity.
  unfold setup_calls. simpl count.
  cbn [is_requestAnimationFrame is_uniform_upload is_draw].
  repeat (split; [lia |]).
  rewrite last_app. destruct C6 as [-> | ->]; [| reflexivity].
  cbn [last]. rewrite !last_app. reflexivity.
Qed.

End MoreFrames.


(** The start-up calls on any page that has a canvas and a context,
    whatever the other answers of the host are. *)
Lemma main_context_any h :
  is_object (h_canvas h) = true -> is_object (h_context h) = true ->
  let g := gl_run gl_init (fst (main h)) in
  clears g = 1%nat /\ draws g = [] /\
  current_program g = h_program h /\
  array_buffer_binding g = h_buffer h /\
  uniforms g = ∅ /\
  (is_object (h_buffer h) = false -> buffer_store g = ∅) /\
  (forall loc, h_positionLoc h = JSNumber loc -> 0 <= loc ->
     attribs g !! loc =
     Some {| a_enabled := true; a_size := 3; a_stride := 0; a_offset := 0;
             a_buffer := h_buffer h |}).
Proof.
  intros Hc Hg g. subst g.
  rewrite main_ok by assumption. cbn [fst].
  rewrite !gl_run_app, gl_run_replicate_rand.
  unfold setup_calls, clear_calls.
  cbn [gl_run foldl map gl_exec gl_init array_buffer_binding buffer_store
       current_program attribs uniforms clears draws].
  assert (Hstore : forall g0 : gl_state,
            is_object (h_buffer h) = false ->
            buffer_store g0 = ∅ -> array_buffer_binding g0 = h_buffer h ->
            buffer_store
              (gl_exec g0 (bufferData ARRAY_BUFFER (fill_points (h_rand h))
                             STATIC_DRAW)) = ∅).
  { intros g0 Hb Hs Hbind. cbn [gl_exec]. rewrite Hbind.
    destruct (h_buffer h); try discriminate; exact Hs. }
  destruct (h_buffer h) as [| b | z] eqn:Eb;
    destruct (h_positionLoc h) as [| l | loc] eqn:El;
    cbn [array_buffer_binding buffer_store current_program attribs uniforms
         clears draws];
    try destruct (Z.leb_spec 0 loc);
    cbn [array_buffer_binding buffer_store current_program attribs uniforms
         clears draws];
    repeat (split; [first [reflexivity | discriminate | intros; reflexivity] |]);
    intros loc' [= <-] Hloc'; try lia;
    unfold attrib_of;
    cbn [array_buffer_binding buffer_store current_program attribs uniforms
         clears draws];
    rewrite ?lookup_insert_eq, ?lookup_empty;
    cbn [default from_option a_enabled a_size a_stride a_offset a_buffer
         default_attrib];
    rewrite ?insert_insert_eq, ?lookup_insert_eq; reflexivity.
Qed.

Section MoreContext.
Context `{MathLib}.

(** X8: on a context that counts, start-up and [n] frames make [n + 1]
    clears and [n] draws, each of 100 points from vertex 0, with the
    created program in use and the created buffer bound, whatever the
    host answered for the other objects. *)
Theorem context_after_frames h n :
  is_object (h_canvas h) = true -> is_object (h_context h) = true ->
  exists t0 st0 stn tn,
    main h = (t0, Blocked st0) /\ frames n st0 = Some (stn, tn) /\
    let g := gl_run gl_init (t0 ++ tn) in
    clears g = S n /\ draws g = replicate n (POINTS, 0, 100) /\
    current_program g = h_program h /\
    array_buffer_binding g = h_buffer h.
Proof.
  intros Hc Hg.
  pose proof (main_context_any h Hc Hg) as Hctx. cbn zeta in Hctx.
  rewrite (main_ok h Hc Hg) in *. cbn [fst] in Hctx.
  set (t0 := _ ++ _) in *.
  set (st0 := initial_state h (fill_points (h_rand h))).
  destruct (frames_ok n st0 Hg) as [tn Hn].
  exists t0, st0. do 2 eexists. split; [reflexivity |]. split; [exact Hn |].
  cbn zeta. rewrite gl_run_app.
  destruct Hctx as (G1 & G2 & G3 & G4 & _).
  destruct (frames_context n (gl_run gl_init t0) _ _ _ Hn)
    as (_ & F2 & F3 & _ & F5 & F6 & _).
  rewrite F2, F3, F5, F6, G1, G2, G3, G4. repeat split; reflexivity.
Qed.

Lemma frames_uniforms n : forall g st st' t,
  frames n st = Some (st', t) ->
  match mvpLoc st with
  | JSObject id =>
      (n = 0%nat /\ uniforms (gl_run g t) = uniforms g) \/
      uniforms (gl_run g t) !! id = Some (mvp (angle st'))
  | _ => uniforms (gl_run g t) = uniforms g
  end.
Proof.
  induction n as [| n IH]; intros g st st' t.
  - intros [= <- <-]. destruct (mvpLoc st); auto.
  - cbn [frames]. destruct (render st) as [[st1 t1] |] eqn:E1; [| discriminate].
    destruct (frames n st1) as [[st2 t2] |] eqn:E2; [| discriminate].
    intros [= <- <-]. rewrite gl_run_app.
    specialize (IH (gl_run g t1) _ _ _ E2).
    unfold render in E1. destruct (is_object (gl st)); [| discriminate].
    injection E1 as <- <-. cbn [mvpLoc set_angle] in IH.
    destruct (mvpLoc st) as [| id | z].
    + rewrite IH. reflexivity.
    + right. destruct IH as [[-> Hu] | Hu]; [| exact Hu].
      rewrite Hu. injection E2 as <- <-. cbn. apply lookup_insert_eq.
    + rewrite IH. reflexivity.
Qed.

(** X9: after one or more frames the uniform of the context holds the
    matrix of the current angle, whatever it held before. *)
Theorem uniform_holds_current_matrix n st g id :
  is_object (gl st) = true -> mvpLoc st = JSObject id -> (0 < n)%nat ->
  exists st' t,
    frames n st = Some (st', t) /\
    uniforms (gl_run g t) !! id = Some (mvp (angle st')).
Proof.
  intros Hgl Hloc Hn. destruct (frames_ok n st Hgl) as [t Ht].
  do 2 eexists. split; [exact Ht |].
  pose proof (frames_uniforms n g _ _ _ Ht) as Hu. rewrite Hloc in Hu.
  destruct Hu as [[-> _] | Hu]; [lia | exact Hu].
Qed.

(** X10: when the uniform location is not an object (the look-up of the
    name failed), every frame still uploads and draws, but no matrix
    ever reaches the context. *)
Theorem failed_uniform_lookup_unnoticed n st g :
  is_object (gl st) = true -> is_object (mvpLoc st) = false ->
  exists st' t,
    frames n st = Some (st', t) /\
    count is_uniform_upload t = n /\
    uniforms (gl_run g t) = uniforms g /\
    draws (gl_run g t) = draws g ++ replicate n (POINTS, 0, 100).
Proof.
  intros Hgl Hloc. destruct (frames_ok n st Hgl) as [t Ht].
  do 2 eexists. split; [exact Ht |].
  destruct (frames_counts n _ _ _ Ht) as (_ & C1 & _).
  destruct (frames_context n g _ _ _ Ht) as (_ & _ & _ & _ & F5 & _).
  pose proof (frames_uniforms n g _ _ _ Ht) as Hu.
  destruct (mvpLoc st); try discriminate; auto.
Qed.


(** X5: at 262144 the angle is a fixed point of the frame step: every
    later frame leaves the state as it is and uploads the same matrix,
    so the picture no longer turns. *)
Theorem rotation_stops_at_262144 n st :
  is_object (gl st) = true -> angle st = F32.of_Z 262144 ->
  exists t,
    frames n st = Some (st, t) /\
    uploaded t = replicate n (mvp (F32.of_Z 262144)).
Proof.
  intros Hgl Ha. induction n as [| n [t [Ht Hu]]].
  - exists []. split; reflexivity.
  - cbn [frames]. rewrite (render_ok st Hgl), Ha, angle_saturates.
    rewrite <- Ha, set_angle_id, Ht. eexists. split; [reflexivity |].
    unfold uploaded in *. rewrite flat_map_app. cbn [flat_map app].
    rewrite Hu, Ha. reflexivity.
Qed.

End MoreContext.


Section Uploads.
Context `{MathLib}.

(** X6: the matrices uploaded by [n] frames are, in order, those of the
    angle advanced once, twice, ..., [n] times: the first frame is drawn
    with the angle already advanced, never with the start value. *)
Theorem uploaded_matrices n : forall st,
  is_object (gl st) = true ->
  exists st' t,
    frames n st = Some (st', t) /\
    uploaded t =
    map (fun k => mvp (Nat.iter (S k) (fun a => F32.add a angle_step) (angle st)))
        (seq 0 n).
Proof.
  induction n as [| n IH]; intros st Hgl.
  - do 2 eexists. split; reflexivity.
  - cbn [frames]. rewrite (render_ok st Hgl).
    destruct (IH (set_angle (F32.add (angle st) angle_step) st) Hgl)
      as (st' & t & Ht & Hu).
    rewrite Ht. do 2 eexists. split; [reflexivity |].
    unfold uploaded in *. rewrite flat_map_app. cbn [flat_map app].
    rewrite Hu. cbn [angle set_angle seq map]. f_equal.
    rewrite <- seq_shift, map_map. apply map_ext. intros k.
    rewrite (Nat.iter_succ_r (S k)). reflexivity.
Qed.

End Uploads.

(* ===================================================================== *)
(** * The further properties on concrete inputs                           *)
(* ===================================================================== *)

Lemma point_coords_value_range_witness :
  (forall k, (k < 300)%nat -> unit_interval (sample_rand k)) /\
  (forall i p, fill_points sample_rand !! i = Some p ->
     - 2 ^ 149 <= F32.scaled p <= 2 ^ 149 - 2 ^ 126).
Proof.
  split; [intros k _; apply sample_rand_unit |].
  apply (point_coords_value_range sample_rand).
  intros k _. apply sample_rand_unit.
Defined.

Lemma angle_stays_in_range_witness :
  is_object (gl sample_state) = true /\
  angle_in_range (angle sample_state) = true /\
  exists st' t,
    @frames taylor_math 5 sample_state = Some (st', t) /\
    angle_in_range (angle st') = true.
Proof.
  split; [reflexivity |]. split; [reflexivity |].
  apply (@angle_stays_in_range taylor_math 5 sample_state); reflexivity.
Defined.

Lemma angle_never_decreases_witness :
  is_object (gl sample_state) = true /\
  angle_in_range (angle sample_state) = true /\
  exists st' t,
    @render taylor_math sample_state = Some (st', t) /\
    F32.leb (angle sample_state) (angle st') = true.
Proof.
  split; [reflexivity |]. split; [reflexivity |].
  apply (@angle_never_decreases taylor_math sample_state); reflexivity.
Defined.

Lemma one_callback_pending_witness :
  is_object (h_canvas sample_host) = true /\
  is_object (h_context sample_host) = true /\
  exists t0 st0 stn tn,
    main sample_host = (t0, Blocked st0) /\
    @frames taylor_math 2 st0 = Some (stn, tn) /\
    count is_requestAnimationFrame (t0 ++ tn) = 3%nat /\
    count is_uniform_upload (t0 ++ tn) = 2%nat /\
    count is_draw (t0 ++ tn) = 2%nat /\
    last (t0 ++ tn) = Some requestAnimationFrame.
Proof.
  split; [reflexivity |]. split; [reflexivity |].
  apply (@one_callback_pending taylor_math sample_host 2); reflexivity.
Defined.

Lemma context_after_frames_witness :
  is_object (h_canvas sample_host) = true /\
  is_object (h_context sample_host) = true /\
  exists t0 st0 stn tn,
    main sample_host = (t0, Blocked st0) /\
    @frames taylor_math 2 st0 = Some (stn, tn) /\
    let g := gl_run gl_init (t0 ++ tn) in
    clears g = 3%nat /\ draws g = replicate 2 (POINTS, 0, 100) /\
    current_program g = h_program sample_host /\
    array_buffer_binding g = h_buffer sample_host.
Proof.
  split; [reflexivity |]. split; [reflexivity |].
  apply (@context_after_frames taylor_math sample_host 2); reflexivity.
Defined.

Lemma uniform_holds_current_matrix_witness :
  is_object (gl sample_state) = true /\
  mvpLoc sample_state = JSObject 7 /\ (0 < 2)%nat /\
  exists st' t,
    @frames taylor_math 2 sample_state = Some (st', t) /\
    uniforms (gl_run gl_init t) !! 7%nat = Some (@mvp taylor_math (angle st')).
Proof.
  split; [reflexivity |]. split; [reflexivity |]. split; [apply Nat.lt_0_2 |].
  apply (@uniform_holds_current_matrix taylor_math 2 sample_state gl_init 7);
    first [reflexivity | apply Nat.lt_0_2].
Defined.

Lemma failed_uniform_lookup_unnoticed_witness :
  is_object (gl other_state) = true /\
  is_object (mvpLoc other_state) = false /\
  exists st' t,
    @frames taylor_math 3 other_state = Some (st', t) /\
    count is_uniform_upload t = 3%nat /\
    uniforms (gl_run gl_init t) = uniforms gl_init /\
    draws (gl_run gl_init t) = draws gl_init ++ replicate 3 (POINTS, 0, 100).
Proof.
  split; [reflexivity |]. split; [reflexivity |].
  apply (@failed_uniform_lookup_unnoticed taylor_math 3 other_state gl_init);
    reflexivity.
Defined.


Lemma rotation_stops_at_262144_witness :
  is_object (gl saturated_state) = true /\
  angle saturated_state = F32.of_Z 262144 /\
  exists t,
    @frames taylor_math 4 saturated_state = Some (saturated_state, t) /\
    uploaded t = replicate 4 (@mvp taylor_math (F32.of_Z 262144)).
Proof.
  split; [reflexivity |]. split; [reflexivity |].
  apply (@rotation_stops_at_262144 taylor_math 4 saturated_state); reflexivity.
Defined.

Lemma program_built_from_both_shaders_witness :
  is_object (h_canvas sample_host) = true /\
  is_object (h_context sample_host) = true /\
  h_vertexShader sample_host = JSObject 4 /\
  h_fragmentShader sample_host = JSObject 5 /\
  h_program sample_host = JSObject 6 /\ 4%nat <> 5%nat /\
  exists t0 st0 stn tn,
    main sample_host = (t0, Blocked st0) /\
    @frames taylor_math 2 st0 = Some (stn, tn) /\
    let p := pipeline_run pipeline_init (t0 ++ tn) in
    pr_in_use p = Some 6%nat /\
    pr_linked p !! 6%nat =
      Some [ (4%nat, Some vertexShaderSource);
             (5%nat, Some fragmentShaderSource) ] /\
    pr_lookups p = [ ("position"%string, true);
                     ("modelViewProjection"%string, true) ] /\
    occurs "attribute vec3 position;" vertexShaderSource = true /\
    occurs "uniform mat4 modelViewProjection;" vertexShaderSource = true.
Proof.
  split; [reflexivity |]. split; [reflexivity |]. split; [reflexivity |].
  split; [reflexivity |]. split; [reflexivity |]. split; [discriminate |].
  apply (@program_built_from_both_shaders taylor_math sample_host 4 5 6 2);
    first [reflexivity | discriminate].
Defined.

Lemma uploaded_matrices_witness :
  is_object (gl sample_state) = true /\
  exists st' t,
    @frames taylor_math 3 sample_state = Some (st', t) /\
    uploaded t =
    map (fun k => @mvp taylor_math
                    (Nat.iter (S k) (fun a => F32.add a angle_step)
                       (angle sample_state)))
        (seq 0 3).
Proof.
  split; [reflexivity |].
  apply (@uploaded_matrices taylor_math 3 sample_state). reflexivity.
Defined.

(* ===================================================================== *)
(** * The angle over many frames                                          *)
(* ===================================================================== *)

Section AngleValue.
Import F32.

(** An angle in range has a value between 0 and 262144. *)
Lemma angle_in_range_scaled a :
  angle_in_range a = true -> 0 <= scaled a <= 262144 * 2 ^ 149.
Proof.
  unfold angle_in_range. intros H.
  apply andb_prop in H. destruct H as [H Hhi].
  apply andb_prop in H. destruct H as [Hv Hlo].
  destruct a as [s | s | | s m e]; try (simpl; lia).
  destruct s; [discriminate |].
  change (valid (S754_finite false m e)) with (bounded prec emax m e) in Hv.
  change (of_Z 262144) with (S754_finite false 8388608 (-5)) in Hhi.
  destruct (bounded_inv _ _ Hv) as [Hc _]. rewrite fexp32_eq in Hc.
  pose proof (bounded_lt_pow24 _ _ Hv) as Hm24.
  cbn [scaled cond_Zopp].
  assert (0 < 2 ^ (e + 149)) by (apply Z.pow_pos_nonneg; lia).
  split; [lia |].
  unfold leb, SFleb, SFcompare in Hhi.
  destruct (Z.compare_spec e (-5)) as [E | L | G]; try discriminate.
  - subst e. rewrite Pos.compare_cont_spec in Hhi. simpl in Hhi.
    change (262144 * 2 ^ 149) with (8388608 * 2 ^ (-5 + 149)).
    apply Z.mul_le_mono_nonneg_r; [apply Z.lt_le_incl; assumption |].
    destruct (Pos.compare_spec m 8388608) as [E | L | G]; try discriminate.
    + subst m. apply Z.le_refl.
    + apply Pos2Z.pos_le_pos, Pos.lt_le_incl, L.
  - change (262144 * 2 ^ 149) with (2 ^ 24 * 2 ^ 143).
    apply Z.mul_le_mono_nonneg.
    + apply Pos2Z.is_nonneg.
    + apply Z.lt_le_incl, Hm24.
    + apply Z.lt_le_incl; assumption.
    + apply Z.pow_le_mono_r; [reflexivity | clear - L Hc; lia].
Qed.

End AngleValue.

Section AngleClaim.
Context `{MathLib}.

(** C4: the angle is zero when the frame loop starts, and
    every tick replaces it by its [float32] sum with the step, the
    [float32] nearest to 0.01 (within [2^-31] of it).  After [n] ticks the
    angle is therefore the [n]-fold [float32] sum of the step.  That sum
    is within a relative error of [2^-16] of [n * 0.01] during the first
    1000 ticks; at every tick it is a [float32] between 0 and 262144 that
    the next tick does not make smaller; and once it is 262144 the next
    tick leaves it unchanged. *)
Theorem angle_after_frames h n :
  is_object (h_canvas h) = true -> is_object (h_context h) = true ->
  exists t0 st0 stn tn stn' t',
    main h = (t0, Blocked st0) /\ angle st0 = F32.zero /\
    frames n st0 = Some (stn, tn) /\
    angle stn = Nat.iter n (fun a => F32.add a angle_step) F32.zero /\
    render stn = Some (stn', t') /\
    angle stn' = F32.add (angle stn) angle_step /\
    Z.abs (100 * F32.scaled angle_step - 2 ^ 149) <= 50 * 2 ^ 119 /\
    ((n <= 1000)%nat -> close_to (Z.of_nat n) (angle stn) = true) /\
    angle_in_range (angle stn) = true /\
    0 <= F32.scaled (angle stn) <= 262144 * 2 ^ 149 /\
    F32.leb (angle stn) (angle stn') = true /\
    (angle stn = F32.of_Z 262144 -> angle stn' = angle stn).
Proof.
  intros Hc Hg. rewrite (main_ok h Hc Hg).
  set (st0 := initial_state h (fill_points (h_rand h))).
  destruct (frames_ok n st0 Hg) as [tn Hn].
  assert (Hr : angle_in_range
                 (Nat.iter n (fun a => F32.add a angle_step) F32.zero) = true)
    by (apply frames_angle_in_range; reflexivity).
  set (stn := set_angle (Nat.iter n (fun a => F32.add a angle_step) (angle st0)) st0) in *.
  eexists. exists st0, stn, tn. do 2 eexists.
  split; [reflexivity |]. split; [reflexivity |]. split; [exact Hn |].
  split; [reflexivity |]. split; [apply render_ok; exact Hg |].
  split; [reflexivity |]. split; [vm_compute; discriminate |].
  split; [apply first_frames_close |].
  split; [exact Hr |].
  split; [apply angle_in_range_scaled; exact Hr |].
  split; [apply add_step_in_range; exact Hr |].
  cbn [angle set_angle stn st0 initial_state]. intros ->. apply angle_saturates.
Qed.

End AngleClaim.

(** C4, counterexample: the angle is not [N * 0.01] up to rounding for
    every [N], and not every frame advances it.  After one hundred million
    frames from the start state the angle is less than a third of
    [100000000 * 0.01]; and in a state whose angle is 262144 the frame
    step does not advance the angle at all. *)
Lemma angle_not_N_times_step :
  (exists t0 st0 stn tn,
     main sample_host = (t0, Blocked st0) /\
     @frames taylor_math many_frames st0 = Some (stn, tn) /\
     3 * (100 * F32.scaled (angle stn)) < 100000000 * 2 ^ 149) /\
  (exists st' t,
     @render taylor_math saturated_state = Some (st', t) /\
     angle st' = angle saturated_state).
Proof.
  split.
  - rewrite (main_ok sample_host eq_refl eq_refl).
    set (st0 := initial_state sample_host (fill_points (h_rand sample_host))).
    destruct (@frames_ok taylor_math many_frames st0 eq_refl) as [tn Hn].
    do 3 eexists. exists tn.
    split; [reflexivity |]. split; [exact Hn |].
    cbn [angle set_angle st0 initial_state].
    pose proof (frames_angle_in_range many_frames F32.zero eq_refl) as Hr.
    apply angle_in_range_scaled in Hr. revert Hr.
    generalize (F32.scaled
                  (Nat.iter many_frames (fun a => F32.add a angle_step) F32.zero)).
    intros z Hz.
    assert (262144 * 2 ^ 149 * 300 < 100000000 * 2 ^ 149) by reflexivity.
    lia.
  - rewrite (@render_ok taylor_math saturated_state eq_refl).
    do 2 eexists. split; [reflexivity |].
    cbn [angle set_angle saturated_state]. apply angle_saturates.
Qed.

Lemma angle_after_frames_witness :
  is_object (h_canvas sample_host) = true /\
  is_object (h_context sample_host) = true /\
  exists t0 st0 stn tn stn' t',
    main sample_host = (t0, Blocked st0) /\ angle st0 = F32.zero /\
    @frames taylor_math 3 st0 = Some (stn, tn) /\
    angle stn = Nat.iter 3 (fun a => F32.add a angle_step) F32.zero /\
    @render taylor_math stn = Some (stn', t') /\
    angle stn' = F32.add (angle stn) angle_step /\
    Z.abs (100 * F32.scaled angle_step - 2 ^ 149) <= 50 * 2 ^ 119 /\
    ((3 <= 1000)%nat -> close_to (Z.of_nat 3) (angle stn) = true) /\
    angle_in_range (angle stn) = true /\
    0 <= F32.scaled (angle stn) <= 262144 * 2 ^ 149 /\
    F32.leb (angle stn) (angle stn') = true /\
    (angle stn = F32.of_Z 262144 -> angle stn' = angle stn).
Proof.
  split; [reflexivity |]. split; [reflexivity |].
  apply (@angle_after_frames taylor_math sample_host 3); reflexivity.
Defined.
